(** * Prompt-structure detector of handit.ai: a shallow embedding

    Source: apps/api/src/services/systemPromptStructureDetectorService.js

    The service inspects recorded request payloads (arbitrary JSON) and
    guesses where the system or user prompt lives.  The embedding keeps the
    shape of the JavaScript: values are dynamically typed, property reads on
    [undefined]/[null] throw, and the two [async] entry points run against an
    explicit world (the text-generation collaborator, the console, the data
    store). *)

From Stdlib Require Import String Ascii List ZArith QArith Bool Arith Lia DecimalString Sorted
  Permutation.
Import ListNotations.
Local Open Scope string_scope.
Local Open Scope nat_scope.
Set Warnings "-register-all".

(** ** JavaScript values

    The values this module can observe: JSON data coming from the logs and
    from [JSON.parse], plus [Error] objects created by the runtime.  A number
    is a rational standing for the double of the payload (JSON has no NaN).
    A character of a string stands for one UTF-16 code unit.  An object is
    the ordered list of its own properties; the first binding of a key is the
    one a read sees.  Members inherited from the built-in prototypes
    (functions such as [toString]) are not data: they are no [value], and a
    read that can reach them is modelled by an [Engine]. *)

Inductive value : Type :=
| VUndefined
| VNull
| VBool (b : bool)
| VNum (q : Q)
| VStr (s : string)
| VArr (items : list value)
| VObj (props : list (string * value))
| VError (name message : string).

Definition obj : Type := list (string * value).

(** Completion of an evaluation: a normal value or a thrown JavaScript value
    (anything may be thrown, not only [Error] objects). *)
Inductive result (A : Type) : Type :=
| Ok (a : A)
| Throw (e : value).
Arguments Ok {A} a.
Arguments Throw {A} e.

Definition bind {A B : Type} (c : result A) (k : A -> result B) : result B :=
  match c with
  | Ok a => k a
  | Throw e => Throw e
  end.

Declare Scope js_scope.
Delimit Scope js_scope with js.
Notation "x <- c ;; k" := (bind c (fun x => k))
  (at level 61, c at next level, right associativity) : js_scope.
Local Open Scope js_scope.

Definition TypeError (message : string) : value := VError "TypeError" message.
Definition SyntaxError (message : string) : value := VError "SyntaxError" message.

(** [number] of a loop index or a length. *)
Definition num_of_nat (n : nat) : value := VNum (inject_Z (Z.of_nat n)).

(** Decimal rendering of a non-negative integer, as a template literal
    prints a loop index or a length. *)
Definition decimal (n : nat) : string := NilZero.string_of_uint (Nat.to_uint n).

(** ToBoolean: the falsy values are [undefined], [null], [false], [0] and
    the empty string. *)
Definition truthy (v : value) : bool :=
  match v with
  | VUndefined | VNull => false
  | VBool b => b
  | VNum q => negb (Qeq_bool q 0)
  | VStr s => negb (String.eqb s "")
  | VArr _ | VObj _ | VError _ _ => true
  end.

(** The [typeof] operator. *)
Definition typeof (v : value) : string :=
  match v with
  | VUndefined => "undefined"
  | VNull => "object"
  | VBool _ => "boolean"
  | VNum _ => "number"
  | VStr _ => "string"
  | VArr _ | VObj _ | VError _ _ => "object"
  end.

Definition is_undefined (v : value) : bool :=
  match v with
  | VUndefined => true
  | _ => false
  end.

(** [v === "literal"] *)
Definition strict_eq_string (v : value) (s : string) : bool :=
  match v with
  | VStr t => String.eqb t s
  | _ => false
  end.

Fixpoint lookup_prop (props : obj) (key : string) : value :=
  match props with
  | [] => VUndefined
  | (k, v) :: rest => if String.eqb k key then v else lookup_prop rest key
  end.

(** A property key that is a canonical array index ("0", "1", "12", never
    "01" or ""). *)
Definition index_of_key (key : string) : option nat :=
  match NilZero.uint_of_string key with
  | Some u =>
      let n := Nat.of_uint u in
      if String.eqb (decimal n) key then Some n else None
  | None => None
  end.

Definition char_at (s : string) (i : nat) : value :=
  match String.get i s with
  | Some c => VStr (String c EmptyString)
  | None => VUndefined
  end.

(** [v[key]] on own properties: reading a property of [undefined] or [null]
    throws a TypeError (message in V8's wording); every other read succeeds,
    with [undefined] for a key the value does not own.  This is the read of
    the engine for every key that names no inherited member, as are all the
    keys this module reads ([input], [role], [content], [text], [message]
    and the keys of the two pattern tables); [Engine] below is the read in
    general. *)
Definition get_prop (v : value) (key : string) : result value :=
  match v with
  | VUndefined =>
      Throw (TypeError ("Cannot read properties of undefined (reading '" ++ key ++ "')"))
  | VNull =>
      Throw (TypeError ("Cannot read properties of null (reading '" ++ key ++ "')"))
  | VBool _ | VNum _ => Ok VUndefined
  | VStr s =>
      if String.eqb key "length" then Ok (num_of_nat (String.length s))
      else match index_of_key key with
           | Some i => Ok (char_at s i)
           | None => Ok VUndefined
           end
  | VArr items =>
      if String.eqb key "length" then Ok (num_of_nat (List.length items))
      else match index_of_key key with
           | Some i => Ok (nth i items VUndefined)
           | None => Ok VUndefined
           end
  | VObj props => Ok (lookup_prop props key)
  | VError name message =>
      if String.eqb key "message" then Ok (VStr message)
      else if String.eqb key "name" then Ok (VStr name)
      else Ok VUndefined
  end.

(** [s.split(sep)] for a one-character separator: never empty, [""] splits
    to [[""]]. *)
Fixpoint split (sep : ascii) (s : string) : list string :=
  match s with
  | EmptyString => [EmptyString]
  | String c rest =>
      if Ascii.eqb c sep then EmptyString :: split sep rest
      else match split sep rest with
           | piece :: pieces => String c piece :: pieces
           | [] => [String c EmptyString]
           end
  end.

(** [list.reduce(f, init)] with a callback that may throw. *)
Fixpoint reduceM {A B : Type} (f : A -> B -> result A) (l : list B) (init : A)
  : result A :=
  match l with
  | [] => Ok init
  | x :: rest => a <- f init x ;; reduceM f rest a
  end.

(** ** getNestedValue (lines 320-324)

    [current && current[key] !== undefined ? current[key] : undefined] *)
Definition nested_step (current : value) (key : string) : result value :=
  if truthy current then
    v <- get_prop current key ;;
    if negb (is_undefined v) then get_prop current key else Ok VUndefined
  else Ok VUndefined.

Definition getNestedValue (o : value) (path : string) : result value :=
  reduceM nested_step (split "." path) o.

(** ** The same resolver over any engine

    [current[key]] is a read of the engine: it finds own properties and
    inherited members alike and may run an accessor, which may throw.  The
    class lists what lines 320-324 use of their values: [undefined], the
    truthiness test of [&&], the comparison with [undefined] and the
    property read.  A read is a function of the value and the key: an
    accessor that answers differently from one read to the next is not
    described. *)
Class Engine (V : Type) : Type := {
  undefinedV : V;
  truthyV : V -> bool;
  is_undefinedV : V -> bool;
  readV : V -> string -> result V;
  undefined_is_undefined : is_undefinedV undefinedV = true;
  undefined_is_falsy : truthyV undefinedV = false
}.

(** [current && current[key] !== undefined ? current[key] : undefined] *)
Definition nested_step_on {V : Type} {E : Engine V} (current : V) (key : string)
  : result V :=
  if truthyV current then
    v <- readV current key ;;
    if negb (is_undefinedV v) then readV current key else Ok undefinedV
  else Ok undefinedV.

Definition getNestedValue_on {V : Type} {E : Engine V} (o : V) (path : string)
  : result V :=
  reduceM nested_step_on (split "." path) o.

(** Data read through own properties only: the engine of [getNestedValue]. *)
#[export] Instance own_properties : Engine value := {|
  undefinedV := VUndefined;
  truthyV := truthy;
  is_undefinedV := is_undefined;
  readV := get_prop;
  undefined_is_undefined := eq_refl;
  undefined_is_falsy := eq_refl
|}.

(** A fragment of the built-in objects: besides data, the function [Object].
    Of the inherited members it describes the ones the checks below walk
    through and no other: [constructor] of a plain object that owns none is
    [Object]; the [name] of [Object]; and [caller] and [arguments] of
    [Object], accessors of [Function.prototype] that throw (message in V8's
    wording). *)
Inductive host_value : Type :=
| Data (v : value)
| ObjectFunction.

Definition read_fragment (current : host_value) (key : string) : result host_value :=
  match current with
  | Data v =>
      match get_prop v key with
      | Throw e => Throw e
      | Ok VUndefined =>
          match v with
          | VObj _ =>
              if String.eqb key "constructor" then Ok ObjectFunction
              else Ok (Data VUndefined)
          | _ => Ok (Data VUndefined)
          end
      | Ok own => Ok (Data own)
      end
  | ObjectFunction =>
      if String.eqb key "name" then Ok (Data (VStr "Object"))
      else if String.eqb key "caller" || String.eqb key "arguments" then
        Throw (TypeError "'caller', 'callee', and 'arguments' properties may not be accessed on strict mode functions or the arguments objects for calls to them")
      else Ok (Data VUndefined)
  end.

#[export] Instance builtin_fragment : Engine host_value := {|
  undefinedV := Data VUndefined;
  truthyV := fun current => match current with
                            | Data v => truthy v
                            | ObjectFunction => true
                            end;
  is_undefinedV := fun current => match current with
                                  | Data v => is_undefined v
                                  | ObjectFunction => false
                                  end;
  readV := read_fragment;
  undefined_is_undefined := eq_refl;
  undefined_is_falsy := eq_refl
|}.

(** ** Location descriptors and candidate patterns *)

(** [type: z.enum(['direct', 'nested', 'array'])] *)
Inductive structure_type : Type := direct | nested | array.

Definition type_name (t : structure_type) : string :=
  match t with
  | direct => "direct"
  | nested => "nested"
  | array => "array"
  end.

(** The object literal the matchers return; an absent or [undefined]
    property is [None]. *)
Record descriptor : Type := mkDescriptor {
  path : string;
  type : structure_type;
  field : string;
  arrayIndex : option nat;
  parentField : option string
}.

Record pattern : Type := mkPattern {
  pat_path : string;
  pat_field : string;
  pat_parentField : option string
}.

(** lines 171-178 *)
Definition systemPatterns : list pattern :=
  [ mkPattern "input.options.systemMessage" "systemMessage" (Some "options");
    mkPattern "systemMessage" "systemMessage" None;
    mkPattern "systemPrompt" "systemMessage" None;
    mkPattern "options.systemMessage" "systemMessage" (Some "options");
    mkPattern "prompt" "prompt" None;
    mkPattern "system" "system" None ].

(** lines 223-232 *)
Definition userPatterns : list pattern :=
  [ mkPattern "input.content" "content" (Some "input");
    mkPattern "content" "content" None;
    mkPattern "userMessage" "userMessage" None;
    mkPattern "query" "query" None;
    mkPattern "text" "text" None;
    mkPattern "message" "message" None;
    mkPattern "input.query" "query" (Some "input");
    mkPattern "input.text" "text" (Some "input") ].

(** ** The two matchers (lines 149-194 and 201-248)

    [findSystemPromptInData] and [findUserPromptInData] are the same text up
    to the role literal and the pattern table; [findPromptInData] is that
    common text. *)

(** [item && typeof item === 'object' && item.role === role && item.content] *)
Definition message_matches (role : string) (item : value) : result bool :=
  if truthy item && String.eqb (typeof item) "object" then
    r <- get_prop item "role" ;;
    if strict_eq_string r role then
      c <- get_prop item "content" ;;
      Ok (truthy c)
    else Ok false
  else Ok false.

Definition array_descriptor (i : nat) : descriptor :=
  {| path := "[" ++ decimal i ++ "].content";
     type := array;
     field := "content";
     arrayIndex := Some i;
     parentField := Some "role" |}.

(** [for (let i = 0; i < data.length; i++)], entered at index [i]. *)
Fixpoint scan_messages (role : string) (items : list value) (i : nat)
  : result (option descriptor) :=
  match items with
  | [] => Ok None
  | item :: rest =>
      hit <- message_matches role item ;;
      if hit then Ok (Some (array_descriptor i))
      else scan_messages role rest (S i)
  end.

(** [value && typeof value === 'string' && value.length > 10] *)
Definition long_string (v : value) : bool :=
  truthy v && String.eqb (typeof v) "string" &&
  match v with
  | VStr s => 10 <? String.length s
  | _ => false
  end.

Definition nested_descriptor (p : pattern) : descriptor :=
  {| path := pat_path p;
     type := nested;
     field := pat_field p;
     arrayIndex := None;
     parentField := pat_parentField p |}.

(** [for (const pattern of patterns)] *)
Fixpoint probe_patterns (data : value) (patterns : list pattern)
  : result (option descriptor) :=
  match patterns with
  | [] => Ok None
  | p :: rest =>
      v <- getNestedValue data (pat_path p) ;;
      if long_string v then Ok (Some (nested_descriptor p))
      else probe_patterns data rest
  end.

Definition findPromptInData (role : string) (patterns : list pattern) (data : value)
  : result (option descriptor) :=
  if negb (truthy data) then Ok None
  else
    in_array <- match data with
                | VArr items => scan_messages role items 0
                | _ => Ok None
                end ;;
    match in_array with
    | Some d => Ok (Some d)
    | None =>
        if String.eqb (typeof data) "object" then probe_patterns data patterns
        else Ok None
    end.

Definition findSystemPromptInData (data : value) : result (option descriptor) :=
  findPromptInData "system" systemPatterns data.

Definition findUserPromptInData (data : value) : result (option descriptor) :=
  findPromptInData "user" userPatterns data.

(** ** Consensus analyzer (lines 255-280 and 287-312) *)

(** [`${structure.type}:${structure.path}`] *)
Definition structure_key (s : descriptor) : string :=
  type_name (type s) ++ ":" ++ path s.

(** [structureCounts[key]], read as a number ([undefined || 0]). *)
Fixpoint count_of (counts : list (string * nat)) (key : string) : nat :=
  match counts with
  | [] => 0
  | (k, n) :: rest => if String.eqb k key then n else count_of rest key
  end.

(** [structureCounts[key] = (structureCounts[key] || 0) + 1]: an existing
    key keeps its place, a new key goes last.  No key is an integer index
    or the name of an inherited member (each starts with a type name and a
    colon), so [Object.keys] lists them in this insertion order. *)
Fixpoint bump (key : string) (counts : list (string * nat)) : list (string * nat) :=
  match counts with
  | [] => [(key, 1)]
  | (k, n) :: rest =>
      if String.eqb k key then (k, S n) :: rest
      else (k, n) :: bump key rest
  end.

Definition structureCounts (structures : list descriptor) : list (string * nat) :=
  fold_left (fun counts s => bump (structure_key s) counts) structures [].

(** [(a, b) => structureCounts[a] > structureCounts[b] ? a : b] *)
Definition more_common (counts : list (string * nat)) (a b : string) : string :=
  if count_of counts b <? count_of counts a then a else b.

(** [Object.keys(structureCounts).reduce(...)] without an initial value:
    throws on no key. *)
Definition mostCommonKey (counts : list (string * nat)) : result string :=
  match map fst counts with
  | [] => Throw (TypeError "Reduce of empty array with no initial value")
  | k :: ks => Ok (fold_left (more_common counts) ks k)
  end.

(** Lines 259-279, from the list [structures] on. *)
Definition mostCommonStructure (structures : list descriptor) : result descriptor :=
  let counts := structureCounts structures in
  key <- mostCommonKey counts ;;
  match find (fun s => String.eqb (structure_key s) key) structures with
  | Some s =>
      Ok {| path := path s;
            type := type s;
            field := field s;
            arrayIndex := arrayIndex s;
            parentField := parentField s |}
  | None => Throw (TypeError "Cannot read properties of undefined (reading 'path')")
  end.

(** ** Detection orchestrator (lines 24-142) *)

Inductive prompt_type : Type := system | user.

(** The object literals built at lines 61-66, 74-79 and 135-140. *)
Record detection : Type := mkDetection {
  structure : option descriptor;
  confidence : Q;
  reasoning : string;
  promptType : option prompt_type
}.

(** What the promise resolves to: one of the literals above, or whatever
    [JSON.parse] made of the collaborator's text (returned as it is, line
    131). *)
Inductive outcome : Type :=
| Built (d : detection)
| Parsed (v : value).

(** One element of [analysisData] (lines 31-38). *)
Record analysis : Type := mkAnalysis {
  logIndex : nat;
  input : value;
  hasSystemPrompt : bool;
  hasUserPrompt : bool;
  systemPromptLocation : option descriptor;
  userPromptLocation : option descriptor
}.

Record message : Type := mkMessage {
  role : string;
  content : string
}.

(** The zod schema of lines 4-16, passed by reference as [responseFormat]. *)
Inductive schema : Type := SystemPromptStructureSchema.

Record request : Type := mkRequest {
  messages : list message;
  responseFormat : schema
}.

(** Line 86-110. *)
Definition system_instruction : string :=
  "You are an expert at analyzing data structures and identifying where prompts are located. 
        
        Your task is to analyze the provided input data structures and determine the most likely path where prompts are stored.
        
        First, look for system prompts. Common patterns include:
        - messages[0].content (for chat-style inputs where first message is system)
        - input.options.systemMessage (for structured inputs)
        - systemMessage (direct field)
        - prompt (direct field)
        - system (direct field)
        
        If no system prompt is found, look for user prompts that contain the main instruction:
        - messages[1].content (for chat-style inputs where second message is user)
        - input.content (for direct inputs)
        - userMessage (direct field)
        - query (direct field)
        - text (direct field)
        
        For each prompt found, also determine where the static part ends and dynamic content begins.
        Look for patterns like:
        - Template variables like {variable} or {{variable}}
        - Dynamic content that changes between logs
        - User-specific data that gets inserted
        
        Return a structured response with the detected path, confidence level, and prompt type.".

(** Lines 114-121 around the [JSON.stringify] hole. *)
Definition user_instruction (dump : string) : string :=
  "Analyze these input data structures and determine where prompts are most likely located:

" ++ dump ++ "

Focus on finding consistent patterns across the logs. If no clear pattern exists, provide the most likely structure based on the data format. Also identify where the static part of the prompt ends.".

(** [structures.forEach(structure => ... structure.type ...)]: the locations
    read off the analysis entries; a [null] location makes the read throw. *)
Fixpoint located (locations : list (option descriptor)) : result (list descriptor) :=
  match locations with
  | [] => Ok []
  | Some s :: rest => tl <- located rest ;; Ok (s :: tl)
  | None :: _ => Throw (TypeError "Cannot read properties of null (reading 'type')")
  end.

Definition analyzeSystemPromptPattern (logsWithSystemPrompts : list analysis)
  : result descriptor :=
  structures <- located (map systemPromptLocation logsWithSystemPrompts) ;;
  mostCommonStructure structures.

Definition analyzeUserPromptPattern (logsWithUserPrompts : list analysis)
  : result descriptor :=
  structures <- located (map userPromptLocation logsWithUserPrompts) ;;
  mostCommonStructure structures.

(** [logs.slice(0, Math.min(3, logs.length))] followed by [.map]: only an
    array has both methods. *)
Definition sampleLogs (logs : value) : result (list value) :=
  match logs with
  | VArr items => Ok (firstn (Nat.min 3 (List.length items)) items)
  | VUndefined | VNull => _ <- get_prop logs "slice" ;; Ok []
  | VStr _ => Throw (TypeError "sampleLogs.map is not a function")
  | _ => Throw (TypeError "logs.slice is not a function")
  end.

(** Lines 31-38: [sampleLogs.map((log, index) => ({...}))], from [index] on. *)
Fixpoint analysisData_from (sample : list value) (index : nat) : result (list analysis) :=
  match sample with
  | [] => Ok []
  | log :: rest =>
      i <- get_prop log "input" ;;
      tl <- analysisData_from rest (S index) ;;
      Ok ({| logIndex := index;
             input := i;
             hasSystemPrompt := false;
             hasUserPrompt := false;
             systemPromptLocation := None;
             userPromptLocation := None |} :: tl)
  end.

(** Lines 42-53: the body of the first-pass loop, as an update of one entry. *)
Definition first_pass (data : analysis) : result analysis :=
  systemPrompt <- findSystemPromptInData (input data) ;;
  match systemPrompt with
  | Some loc =>
      Ok {| logIndex := logIndex data;
            input := input data;
            hasSystemPrompt := true;
            hasUserPrompt := hasUserPrompt data;
            systemPromptLocation := Some loc;
            userPromptLocation := userPromptLocation data |}
  | None =>
      userPrompt <- findUserPromptInData (input data) ;;
      match userPrompt with
      | Some loc =>
          Ok {| logIndex := logIndex data;
                input := input data;
                hasSystemPrompt := hasSystemPrompt data;
                hasUserPrompt := true;
                systemPromptLocation := systemPromptLocation data;
                userPromptLocation := Some loc |}
      | None => Ok data
      end
  end.

Fixpoint forEachM {A : Type} (f : A -> result A) (l : list A) : result (list A) :=
  match l with
  | [] => Ok []
  | x :: rest => y <- f x ;; tl <- forEachM f rest ;; Ok (y :: tl)
  end.

(** Lines 28-54. *)
Definition analyse (logs : value) : result (list analysis) :=
  sample <- sampleLogs logs ;;
  analysisData <- analysisData_from sample 0 ;;
  forEachM first_pass analysisData.

(** The argument of [JSON.stringify] at lines 116-119. *)
Definition dumped (analysisData : list analysis) : value :=
  VArr (map (fun data => VObj [("logIndex", num_of_nat (logIndex data));
                               ("input", input data)]) analysisData).

Definition system_consensus (logsWithSystemPrompts : list analysis) (s : descriptor)
  : detection :=
  {| structure := Some s;
     confidence := 0.9;
     reasoning := "Detected consistent system prompt structure across "
                  ++ decimal (List.length logsWithSystemPrompts) ++ " logs";
     promptType := Some system |}.

Definition user_consensus (logsWithUserPrompts : list analysis) (s : descriptor)
  : detection :=
  {| structure := Some s;
     confidence := 0.8;
     reasoning := "Detected consistent user prompt structure across "
                  ++ decimal (List.length logsWithUserPrompts)
                  ++ " logs (no system prompt found)";
     promptType := Some user |}.

(** [model.systemPromptStructure = structure] on the record of own
    properties. *)
Fixpoint set_prop (o : obj) (key : string) (v : value) : obj :=
  match o with
  | [] => [(key, v)]
  | (k, old) :: rest =>
      if String.eqb k key then (k, v) :: rest
      else (k, old) :: set_prop rest key v
  end.

(** ** Vocabulary of the statements *)

(** A read that cannot throw because its receiver was tested first. *)
Definition peek (v : value) (key : string) : value :=
  match get_prop v key with
  | Ok x => x
  | Throw _ => VUndefined
  end.

(** One guarded step of path resolution, as a value. *)
Definition walk (current : value) (key : string) : value :=
  if truthy current then peek current key else VUndefined.

Fixpoint dotless (s : string) : bool :=
  match s with
  | EmptyString => true
  | String c rest => negb (Ascii.eqb c ".") && dotless rest
  end.

(** An element the array scan accepts for [role]: an object whose [role] is
    that string and whose [content] is not empty (truthy). *)
Definition role_message (role : string) (item : value) : Prop :=
  exists props,
    item = VObj props /\
    lookup_prop props "role" = VStr role /\
    truthy (lookup_prop props "content") = true.

(** The value at [p] is a string of more than 10 characters. *)
Definition qualifies (data : value) (p : string) : Prop :=
  exists s, getNestedValue data p = Ok (VStr s) /\ 10 < String.length s.

(** Size of the (type, path) group of [key] in [l]. *)
Definition occurrences (key : string) (l : list descriptor) : nat :=
  count_occ string_dec (map structure_key l) key.

(** Position at which [key] is first seen in [l] ([length l] if never). *)
Fixpoint first_seen (key : string) (l : list descriptor) : nat :=
  match l with
  | [] => 0
  | s :: rest =>
      if String.eqb (structure_key s) key then 0 else S (first_seen key rest)
  end.

(** The first-pass verdicts on one log record. *)
Definition found (r : result (option descriptor)) : option descriptor :=
  match r with
  | Ok (Some d) => Some d
  | _ => None
  end.

Definition system_location (log : obj) : option descriptor :=
  found (findSystemPromptInData (lookup_prop log "input")).

(** The user matcher is consulted only where the system matcher found
    nothing (line 46). *)
Definition user_location (log : obj) : option descriptor :=
  match system_location log with
  | Some _ => None
  | None => found (findUserPromptInData (lookup_prop log "input"))
  end.

Definition is_some {A : Type} (o : option A) : bool :=
  match o with
  | Some _ => true
  | None => false
  end.

Definition system_matched (log : obj) : bool := is_some (system_location log).
Definition user_matched (log : obj) : bool := is_some (user_location log).

Fixpoint somes {A : Type} (l : list (option A)) : list A :=
  match l with
  | [] => []
  | Some a :: rest => a :: somes rest
  | None :: rest => somes rest
  end.

(** What the first pass leaves in [analysisData] for one log record. *)
Definition verdict (index : nat) (log : obj) : analysis :=
  {| logIndex := index;
     input := lookup_prop log "input";
     hasSystemPrompt := system_matched log;
     hasUserPrompt := user_matched log;
     systemPromptLocation := system_location log;
     userPromptLocation := user_location log |}.

Fixpoint verdicts (logs : list obj) (index : nat) : list analysis :=
  match logs with
  | [] => []
  | log :: rest => verdict index log :: verdicts rest (S index)
  end.

(** The tie-break as the specification words it: the first key, in
    first-seen order, whose group has the greatest size. *)
Definition spec_first_maximal_key (l : list descriptor) : option string :=
  let keys := map structure_key l in
  let best := fold_right Nat.max 0 (map (fun k => occurrences k l) keys) in
  find (fun k => occurrences k l =? best) keys.

(** A thrown value whose [message] can be read. *)
Definition not_nullish (e : value) : Prop := e <> VUndefined /\ e <> VNull.

(** Whether the conversion of a value to a string completes.  A data
    object converts through the built-in [toString] unless it carries a
    [toString] of its own, which, being data, is not callable: the
    conversion then falls back on [valueOf], gets the object itself, and
    raises a TypeError.  An array joins the conversions of its elements,
    skipping [undefined] and [null]. *)
Fixpoint convertible (v : value) : bool :=
  match v with
  | VArr items =>
      (fix each (l : list value) : bool :=
         match l with
         | [] => true
         | x :: rest =>
             match x with
             | VUndefined | VNull => true
             | _ => convertible x
             end && each rest
         end) items
  | VObj props => negb (existsb (String.eqb "toString") (map fst props))
  | _ => true
  end.

(** A thrown value the [catch] clause can report: its [message] can be
    read and converted to a string. *)
Definition legible (e : value) : Prop :=
  not_nullish e /\ convertible (peek e "message") = true.

(** A computation that throws legible values only. *)
Definition throws_readable {A : Type} (c : result A) : Prop :=
  forall e, c = Throw e -> legible e.

(** What a descriptor returned for [data] points at: the first element of
    an array that is a message of the role, or a table path whose value is
    a string of more than 10 characters. *)
Definition points_at_prompt
  (r : string) (patterns : list pattern) (data : value) (d : descriptor) : Prop :=
  (exists items i item,
      data = VArr items /\ d = array_descriptor i /\
      nth_error items i = Some item /\ role_message r item /\
      (forall j earlier, j < i -> nth_error items j = Some earlier ->
                         ~ role_message r earlier)) \/
  (exists p, In p patterns /\ d = nested_descriptor p /\
             qualifies data (pat_path p)).

(** The record the catch clause builds around a message (lines 135-140). *)
Definition zero_confidence (message : string) : detection :=
  {| structure := None;
     confidence := 0;
     reasoning := "Error during detection: " ++ message;
     promptType := None |}.

(** What the orchestrator keeps of a log: its [input]. *)
Definition as_record (log : value) : obj := [("input", peek log "input")].

(** A [logs] argument the first lines of the orchestrator cannot walk: not
    an array, or an array with [undefined] or [null] among its first three
    elements. *)
Definition malformed (logs : value) : Prop :=
  (forall items, logs <> VArr items) \/
  (exists items log,
      logs = VArr items /\ In log (firstn 3 items) /\ ~ not_nullish log).

(** ** Sample payloads and collaborators used by the concrete checks *)

(** A log record whose input is a one-message chat, and one whose input is
    an object with a single text field. *)
Definition chat_record (r text : string) : obj :=
  [("input", VArr [VObj [("role", VStr r); ("content", VStr text)]])].

Definition field_record (key text : string) : obj :=
  [("input", VObj [(key, VStr text)])].

(** A log record whose input has both a system prompt and a user prompt. *)
Definition both_record : obj :=
  [("input", VObj [("systemMessage", VStr "You are a helpful bot");
                   ("content", VStr "hello there friend")])].

Definition d_array0 : descriptor := array_descriptor 0.

Definition d_prompt : descriptor :=
  nested_descriptor (mkPattern "prompt" "prompt" None).

(** A text-generation service that answers every request with the same
    text. *)
Definition answering (text : string) (r : request) (w : unit) : result value * unit :=
  (Ok (VObj [("text", VStr text)]), w).

(** A text-generation service whose promise rejects with [reason]. *)
Definition rejecting (reason : value) (r : request) (w : unit) : result value * unit :=
  (Throw reason, w).

(** A toy [JSON.parse]: knows the literal [null], rejects everything else. *)
Definition parse_null_only (s : string) : value + string :=
  if String.eqb s "null" then inl VNull else inr "Unexpected token".

Definition stringify_stub (v : value) : string := "[]".

Definition number_stub (q : Q) : string := "0".

(** A [save] that always succeeds and one that always rejects with [e]. *)
Definition save_ok (m : obj) (st : list obj) : result unit * list obj :=
  (Ok tt, m :: st).

Definition save_failing (e : value) (m : obj) (st : list obj) : result unit * list obj :=
  (Throw e, st).

(** Case analysis on the tests a property read goes through. *)
Ltac split_reads :=
  repeat match goal with
         | |- context [if ?b then _ else _] => destruct b
         | |- context [match ?o with Some _ => _ | None => _ end] => destruct o
         end.

Create HintDb throws.

Section Service.

Set Default Proof Using "Type".

(** *** Collaborators and built-ins taken as given *)

(** State of the outside world the text-generation service depends on. *)
Variable W : Type.
(** [generateAIResponse({messages, responseFormat})] of aiService.js,
    awaited: the promise resolves or rejects. *)
Variable generateAIResponse : request -> W -> result value * W.
(** [JSON.parse]: a value, or the message of the SyntaxError it throws. *)
Variable JSON_parse : string -> value + string.
(** [JSON.stringify(_, null, 2)]. *)
Variable JSON_stringify : value -> string.
(** Number-to-string conversion of the engine. *)
Variable Number_toString : Q -> string.

(** The text ToString gives when the conversion completes: exact on
    primitives and on Error objects, and on arrays and data objects that
    are [convertible], which the built-in [toString] prints. *)
Fixpoint ToString (v : value) : string :=
  match v with
  | VUndefined => "undefined"
  | VNull => "null"
  | VBool true => "true"
  | VBool false => "false"
  | VNum q => Number_toString q
  | VStr s => s
  | VArr items =>
      (fix join (l : list value) : string :=
         match l with
         | [] => ""
         | x :: rest =>
             let shown := match x with
                          | VUndefined | VNull => ""
                          | _ => ToString x
                          end in
             match rest with
             | [] => shown
             | _ :: _ => shown ++ "," ++ join rest
             end
         end) items
  | VObj _ => "[object Object]"
  | VError name message =>
      if String.eqb name "" then message
      else if String.eqb message "" then name
      else name ++ ": " ++ message
  end.

(** ToString as a template literal applies it: the text, or the TypeError
    of a conversion that does not complete. *)
Definition to_text (v : value) : result string :=
  if convertible v then Ok (ToString v)
  else Throw (TypeError "Cannot convert object to primitive value").

Definition parse (text : string) : result value :=
  match JSON_parse text with
  | inl v => Ok v
  | inr message => Throw (SyntaxError message)
  end.

Record world : Type := mkWorld {
  ext : W;
  requests : list request;
  console : list (string * value)
}.

(** [console.error(label, error)] *)
Definition console_error (label : string) (error : value) (w : world) : world :=
  {| ext := ext w;
     requests := requests w;
     console := console w ++ [(label, error)] |}.

(** Lines 83-123. *)
Definition analysis_request (analysisData : list analysis) : request :=
  {| messages :=
       [ {| role := "system"; content := system_instruction |};
         {| role := "user";
            content := user_instruction (JSON_stringify (dumped analysisData)) |} ];
     responseFormat := SystemPromptStructureSchema |}.

(** Lines 125-131: the awaited call, then [JSON.parse(response.text)].
    The parser is handed the text ToString gives, which is exact when
    [text] is [convertible], as every string is.  For another [text] the
    conversion throws a TypeError before anything is parsed, which the
    [catch] clause absorbs like a SyntaxError; this case is left out. *)
Definition ask (analysisData : list analysis) (w : world) : result outcome * world :=
  let req := analysis_request analysisData in
  let (response, ext') := generateAIResponse req (ext w) in
  let w' := {| ext := ext';
               requests := requests w ++ [req];
               console := console w |} in
  (r <- response ;;
   text <- get_prop r "text" ;;
   v <- parse (ToString text) ;;
   Ok (Parsed v), w').

(** The [try] block, lines 26-131. *)
Definition detect_body (logs : value) (w : world) : result outcome * world :=
  match analyse logs with
  | Throw e => (Throw e, w)
  | Ok analysisData =>
      let logsWithSystemPrompts := filter hasSystemPrompt analysisData in
      if 2 <=? List.length logsWithSystemPrompts then
        (s <- analyzeSystemPromptPattern logsWithSystemPrompts ;;
         Ok (Built (system_consensus logsWithSystemPrompts s)), w)
      else
        let logsWithUserPrompts := filter hasUserPrompt analysisData in
        if 2 <=? List.length logsWithUserPrompts then
          (s <- analyzeUserPromptPattern logsWithUserPrompts ;;
           Ok (Built (user_consensus logsWithUserPrompts s)), w)
        else ask analysisData w
  end.

(** Lines 135-140; [error.message] is read from whatever was thrown and
    spliced into the template literal of line 138. *)
Definition detection_failure (error : value) : result outcome :=
  m <- get_prop error "message" ;;
  shown <- to_text m ;;
  Ok (Built {| structure := None;
               confidence := 0;
               reasoning := "Error during detection: " ++ shown;
               promptType := None |}).

(** Lines 24-142.  [Ok] is the promise resolving, [Throw] its rejection. *)
Definition detectSystemPromptStructure (logs model : value) (w : world)
  : result outcome * world :=
  match detect_body logs w with
  | (Ok r, w') => (Ok r, w')
  | (Throw error, w') =>
      (detection_failure error,
       console_error "Error detecting system prompt structure:" error w')
  end.

(** *** Persistence (lines 332-341) *)

(** State of the external data store. *)
Variable Store : Type.
(** [model.save()], awaited: reads the instance and writes the store; the
    in-memory attribute [systemPromptStructure] is written by this module
    only. *)
Variable save : obj -> Store -> result unit * Store.

(** A run of the update: how the promise settles, the in-memory instance,
    the store and the console afterwards.  A resolved promise carries the
    instance itself. *)
Record update_run : Type := mkRun {
  settled : result obj;
  model_after : obj;
  store_after : Store;
  logged : list (string * value)
}.

Definition updateModelSystemPromptStructure
  (model : obj) (structure : value) (st : Store) : update_run :=
  let model' := set_prop model "systemPromptStructure" structure in
  match save model' st with
  | (Ok _, st') =>
      {| settled := Ok model'; model_after := model';
         store_after := st'; logged := [] |}
  | (Throw error, st') =>
      {| settled := Throw error; model_after := model';
         store_after := st';
         logged := [("Error updating model system prompt structure:", error)] |}
  end.

(** ** Facts *)

(** *** Path resolution *)

Lemma get_prop_truthy (v : value) (key : string) :
  truthy v = true -> get_prop v key = Ok (peek v key).
Proof.
  unfold peek. destruct v; simpl; try discriminate; intros _;
    split_reads; reflexivity.
Qed.

Lemma nested_step_walk (current : value) (key : string) :
  nested_step current key = Ok (walk current key).
Proof.
  unfold nested_step, walk. destruct (truthy current) eqn:T; [|reflexivity].
  rewrite (get_prop_truthy _ _ T). simpl.
  destruct (peek current key); reflexivity.
Qed.

Lemma reduceM_walk (keys : list string) (o : value) :
  reduceM nested_step keys o = Ok (fold_left walk keys o).
Proof.
  revert o. induction keys as [|k keys IH]; intros o; simpl; [reflexivity|].
  rewrite nested_step_walk. simpl. apply IH.
Qed.

Lemma walk_undefined (keys : list string) :
  fold_left walk keys VUndefined = VUndefined.
Proof. induction keys as [|k keys IH]; simpl; [reflexivity | exact IH]. Qed.

Lemma split_nonempty (sep : ascii) (s : string) : split sep s <> [].
Proof.
  induction s as [|c s IH]; simpl; [discriminate|].
  destruct (Ascii.eqb c sep); [discriminate|].
  destruct (split sep s); [contradiction | discriminate].
Qed.

Lemma split_dotless_prefix (key rest : string) :
  dotless key = true ->
  split "." (key ++ "." ++ rest) = key :: split "." rest.
Proof.
  induction key as [|c key IH]; intros D; simpl in *.
  - reflexivity.
  - apply andb_prop in D. destruct D as [C D].
    destruct (Ascii.eqb c "."); [discriminate|].
    rewrite (IH D). reflexivity.
Qed.

(** *** The matchers *)

Lemma getNestedValue_walk (o : value) (p : string) :
  getNestedValue o p = Ok (fold_left walk (split "." p) o).
Proof. apply reduceM_walk. Qed.

Lemma message_matches_total (r : string) (item : value) :
  exists b, message_matches r item = Ok b.
Proof.
  unfold message_matches.
  destruct (truthy item && String.eqb (typeof item) "object") eqn:G; [|eauto].
  apply andb_prop in G. destruct G as [T _].
  rewrite !(get_prop_truthy _ _ T). simpl.
  destruct (strict_eq_string (peek item "role") r); eauto.
Qed.

Lemma message_matches_true (r : string) (item : value) :
  message_matches r item = Ok true <-> role_message r item.
Proof.
  unfold message_matches, role_message. split.
  - destruct item as [| | b | q | s | items | props | n m]; simpl;
      try discriminate.
    + destruct b; discriminate.
    + destruct (negb (Qeq_bool q 0)); discriminate.
    + destruct (negb (String.eqb s "")); discriminate.
    + destruct (lookup_prop props "role") as [| | | | t | | |] eqn:R; simpl;
        try discriminate.
      destruct (String.eqb_spec t r) as [->|]; [|discriminate].
      intros H. injection H as H. exists props. auto.
  - intros (props & -> & R & C). simpl. rewrite R. simpl.
    rewrite String.eqb_refl, C. reflexivity.
Qed.

Lemma message_matches_false (r : string) (item : value) :
  ~ role_message r item -> message_matches r item = Ok false.
Proof.
  intros N. destruct (message_matches_total r item) as [[|] E]; [|exact E].
  apply message_matches_true in E. contradiction.
Qed.

Lemma scan_messages_first (r : string) (items : list value) :
  forall (start i : nat) (item : value),
    nth_error items i = Some item ->
    role_message r item ->
    (forall j earlier, j < i -> nth_error items j = Some earlier ->
                       ~ role_message r earlier) ->
    scan_messages r items start = Ok (Some (array_descriptor (start + i))).
Proof.
  induction items as [|x items IH]; intros start i item Hn Hm Hfirst.
  - destruct i; discriminate.
  - destruct i as [|i]; simpl in *.
    + injection Hn as ->. apply message_matches_true in Hm. rewrite Hm. simpl.
      rewrite Nat.add_0_r. reflexivity.
    + rewrite (message_matches_false r x); [|apply (Hfirst 0); [lia | reflexivity]].
      simpl. rewrite (IH (S start) i item Hn Hm).
      * rewrite Nat.add_succ_r. reflexivity.
      * intros j earlier Hj He. apply (Hfirst (S j)); [lia | exact He].
Qed.

Lemma scan_messages_none (r : string) (items : list value) :
  forall start : nat,
    (forall item, In item items -> ~ role_message r item) ->
    scan_messages r items start = Ok None.
Proof.
  induction items as [|x items IH]; intros start Hno; simpl; [reflexivity|].
  rewrite (message_matches_false r x); [|apply Hno; left; reflexivity].
  simpl. apply IH. intros item Hin. apply Hno. right. exact Hin.
Qed.

Lemma scan_messages_total (r : string) (items : list value) :
  forall start : nat, exists o, scan_messages r items start = Ok o.
Proof.
  induction items as [|x items IH]; intros start; simpl; [eauto|].
  destruct (message_matches_total r x) as [[|] ->]; simpl; eauto.
Qed.

Lemma long_string_true (v : value) :
  long_string v = true <-> exists s, v = VStr s /\ 10 < String.length s.
Proof.
  unfold long_string. split.
  - destruct v as [| | b | q | s | items | props | n m]; simpl;
      rewrite ?andb_false_r; try discriminate.
    intros H. apply andb_prop in H. destruct H as [_ H].
    apply Nat.ltb_lt in H. eauto.
  - intros (s & -> & L). simpl.
    destruct s as [|c s]; [simpl in L; lia|].
    simpl. apply Nat.ltb_lt. exact L.
Qed.

Lemma long_string_qualifies (data : value) (p : string) :
  long_string (fold_left walk (split "." p) data) = true <-> qualifies data p.
Proof.
  unfold qualifies. rewrite long_string_true, getNestedValue_walk. split.
  - intros (s & E & L). exists s. rewrite E. auto.
  - intros (s & E & L). injection E as E. eauto.
Qed.

Lemma probe_patterns_first (data : value) (before : list pattern) :
  forall (p : pattern) (after : list pattern),
    (forall q, In q before -> ~ qualifies data (pat_path q)) ->
    qualifies data (pat_path p) ->
    probe_patterns data (before ++ p :: after)%list = Ok (Some (nested_descriptor p)).
Proof.
  induction before as [|q before IH]; intros p after Hno Hp; simpl;
    rewrite getNestedValue_walk; simpl.
  - apply long_string_qualifies in Hp. rewrite Hp. reflexivity.
  - destruct (long_string (fold_left walk (split "." (pat_path q)) data)) eqn:L.
    + apply long_string_qualifies in L. exfalso. apply (Hno q); [left; reflexivity | exact L].
    + apply IH; [|exact Hp]. intros q' Hin. apply Hno. right. exact Hin.
Qed.

Lemma probe_patterns_none (data : value) (patterns : list pattern) :
  (forall q, In q patterns -> ~ qualifies data (pat_path q)) ->
  probe_patterns data patterns = Ok None.
Proof.
  induction patterns as [|q patterns IH]; intros Hno; simpl; [reflexivity|].
  rewrite getNestedValue_walk. simpl.
  destruct (long_string (fold_left walk (split "." (pat_path q)) data)) eqn:L.
  - apply long_string_qualifies in L. exfalso. apply (Hno q); [left; reflexivity | exact L].
  - apply IH. intros q' Hin. apply Hno. right. exact Hin.
Qed.

Lemma probe_patterns_total (data : value) (patterns : list pattern) :
  exists o, probe_patterns data patterns = Ok o.
Proof.
  induction patterns as [|q patterns IH]; simpl; [eauto|].
  rewrite getNestedValue_walk. simpl.
  destruct (long_string _); eauto.
Qed.

Lemma findPromptInData_total (r : string) (patterns : list pattern) (data : value) :
  exists o, findPromptInData r patterns data = Ok o.
Proof.
  unfold findPromptInData. destruct (negb (truthy data)); [eauto|].
  assert (exists o, match data with
                    | VArr items => scan_messages r items 0
                    | _ => Ok None
                    end = Ok o) as [o ->].
  { destruct data; eauto. apply scan_messages_total. }
  simpl. destruct o; [eauto|].
  destruct (String.eqb (typeof data) "object"); [|eauto].
  apply probe_patterns_total.
Qed.

(** C5. For every array input, if some element is an object with role
    "system" and a non-empty (truthy) content, the system-prompt matcher
    returns, for the first such index i, the descriptor
    {path: "[i].content", type: "array", field: "content", arrayIndex: i,
    parentField: "role"}. *)
Theorem findSystemPromptInData_array
  (items : list value) (i : nat) (item : value) :
  nth_error items i = Some item ->
  role_message "system" item ->
  (forall j earlier, j < i -> nth_error items j = Some earlier ->
                     ~ role_message "system" earlier) ->
  findSystemPromptInData (VArr items) =
  Ok (Some {| path := "[" ++ decimal i ++ "].content";
              type := array;
              field := "content";
              arrayIndex := Some i;
              parentField := Some "role" |}).
Proof.
  intros Hn Hm Hfirst. unfold findSystemPromptInData, findPromptInData. simpl.
  rewrite (scan_messages_first "system" items 0 i item Hn Hm Hfirst).
  reflexivity.
Qed.

(** C6. For every object input with no array-pattern match, the
    system-prompt matcher probes the dotted paths
    input.options.systemMessage, systemMessage, systemPrompt,
    options.systemMessage, prompt, system in exactly that order and returns
    a descriptor of type "nested" for the first path whose resolved value is
    a string of length strictly greater than 10; if no path qualifies it
    returns no match. *)
Theorem findSystemPromptInData_nested :
  map pat_path systemPatterns =
  [ "input.options.systemMessage"; "systemMessage"; "systemPrompt";
    "options.systemMessage"; "prompt"; "system" ] /\
  forall data : value,
    truthy data = true ->
    typeof data = "object" ->
    (forall items item, data = VArr items -> In item items ->
                        ~ role_message "system" item) ->
    (forall before p after,
        systemPatterns = (before ++ p :: after)%list ->
        (forall q, In q before -> ~ qualifies data (pat_path q)) ->
        qualifies data (pat_path p) ->
        findSystemPromptInData data =
        Ok (Some {| path := pat_path p;
                    type := nested;
                    field := pat_field p;
                    arrayIndex := None;
                    parentField := pat_parentField p |})) /\
    ((forall q, In q systemPatterns -> ~ qualifies data (pat_path q)) ->
     findSystemPromptInData data = Ok None).
Proof.
  split; [reflexivity|].
  intros data T O Harr.
  assert (match data with
          | VArr items => scan_messages "system" items 0
          | _ => Ok None
          end = Ok None) as Hscan.
  { destruct data; try reflexivity.
    apply scan_messages_none. intros item Hin. exact (Harr items item eq_refl Hin). }
  unfold findSystemPromptInData, findPromptInData.
  rewrite T. cbn [negb]. rewrite Hscan. cbn [bind].
  rewrite O, String.eqb_refl. split.
  - intros before p after E Hno Hp. rewrite E.
    apply (probe_patterns_first data before p after Hno Hp).
  - apply probe_patterns_none.
Qed.

(** *** The consensus analyzer *)

Lemma structure_key_inj (a b : descriptor) :
  structure_key a = structure_key b <-> type a = type b /\ path a = path b.
Proof.
  unfold structure_key. split.
  - destruct (type a), (type b); simpl; intros H; inversion H; auto.
  - intros [-> ->]. reflexivity.
Qed.

(** A key is never an array index, so the engine keeps the keys of
    [structureCounts] in insertion order. *)
Lemma structure_key_not_index (s : descriptor) :
  index_of_key (structure_key s) = None.
Proof.
  unfold index_of_key, structure_key.
  destruct (type s); simpl;
    destruct (NilEmpty.uint_of_string (path s)); reflexivity.
Qed.

Lemma count_of_bump (key k : string) (counts : list (string * nat)) :
  count_of (bump key counts) k =
  if String.eqb key k then S (count_of counts k) else count_of counts k.
Proof.
  induction counts as [|[k0 n] counts IH]; simpl.
  - destruct (String.eqb key k); reflexivity.
  - destruct (String.eqb_spec k0 key) as [->|Hne]; simpl.
    + destruct (String.eqb key k); reflexivity.
    + destruct (String.eqb_spec k0 k) as [->|Hne'].
      * destruct (String.eqb_spec key k) as [->|]; [contradiction | reflexivity].
      * exact IH.
Qed.

Lemma keys_bump_in (key : string) (counts : list (string * nat)) :
  In key (map fst counts) -> map fst (bump key counts) = map fst counts.
Proof.
  induction counts as [|[k0 n] counts IH]; simpl; intros Hin; [contradiction|].
  destruct (String.eqb_spec k0 key) as [->|Hne]; simpl; [reflexivity|].
  destruct Hin as [->|Hin]; [contradiction|]. rewrite (IH Hin). reflexivity.
Qed.

Lemma keys_bump_fresh (key : string) (counts : list (string * nat)) :
  ~ In key (map fst counts) ->
  map fst (bump key counts) = (map fst counts ++ [key])%list.
Proof.
  induction counts as [|[k0 n] counts IH]; simpl; intros Hnin; [reflexivity|].
  destruct (String.eqb_spec k0 key) as [->|Hne]; simpl.
  - exfalso. apply Hnin. left. reflexivity.
  - rewrite IH; [reflexivity|]. intros Hin. apply Hnin. right. exact Hin.
Qed.

Lemma structureCounts_snoc (l : list descriptor) (s : descriptor) :
  structureCounts (l ++ [s]) = bump (structure_key s) (structureCounts l).
Proof. unfold structureCounts. rewrite fold_left_app. reflexivity. Qed.

Lemma occurrences_snoc (k : string) (l : list descriptor) (s : descriptor) :
  occurrences k (l ++ [s]) =
  if String.eqb (structure_key s) k then S (occurrences k l) else occurrences k l.
Proof.
  unfold occurrences. rewrite map_app, count_occ_app. simpl.
  destruct (string_dec (structure_key s) k) as [->|Hne].
  - rewrite String.eqb_refl. lia.
  - destruct (String.eqb_spec (structure_key s) k); [contradiction | lia].
Qed.

Lemma count_of_structureCounts (k : string) (l : list descriptor) :
  count_of (structureCounts l) k = occurrences k l.
Proof.
  induction l as [|s l IH] using rev_ind; [reflexivity|].
  rewrite structureCounts_snoc, count_of_bump, occurrences_snoc, IH.
  reflexivity.
Qed.

Lemma first_seen_bound (k : string) (l : list descriptor) :
  In k (map structure_key l) <-> first_seen k l < List.length l.
Proof.
  induction l as [|s l IH]; simpl.
  - split; [contradiction | lia].
  - destruct (String.eqb_spec (structure_key s) k) as [E|Hne].
    + split; [lia | auto].
    + rewrite <- Nat.succ_lt_mono, <- IH. split; [intros [?|?]; [contradiction | assumption] | auto].
Qed.

Lemma first_seen_app_in (k : string) (l l' : list descriptor) :
  In k (map structure_key l) -> first_seen k (l ++ l') = first_seen k l.
Proof.
  induction l as [|s l IH]; simpl; intros Hin; [contradiction|].
  destruct (String.eqb_spec (structure_key s) k) as [E|Hne]; [reflexivity|].
  destruct Hin as [E|Hin]; [contradiction|]. rewrite (IH Hin). reflexivity.
Qed.

Lemma first_seen_app_fresh (k : string) (l l' : list descriptor) :
  ~ In k (map structure_key l) ->
  first_seen k (l ++ l') = List.length l + first_seen k l'.
Proof.
  induction l as [|s l IH]; simpl; intros Hnin; [reflexivity|].
  destruct (String.eqb_spec (structure_key s) k) as [E|Hne].
  - exfalso. apply Hnin. left. exact E.
  - rewrite IH; [reflexivity|]. intros Hin. apply Hnin. right. exact Hin.
Qed.

Lemma increasing_snoc (xs : list nat) (y : nat) :
  StronglySorted lt xs -> Forall (fun x => x < y) xs ->
  StronglySorted lt (xs ++ [y]).
Proof.
  induction 1 as [|x xs Hs IH Hx]; intros Hall; simpl.
  - repeat constructor.
  - inversion Hall as [|? ? Hxy Hrest]; subst. constructor.
    + apply IH. exact Hrest.
    + apply Forall_app. split; [exact Hx | repeat constructor; exact Hxy].
Qed.

Lemma increasing_middle (xs1 xs2 : list nat) (x : nat) :
  StronglySorted lt (xs1 ++ x :: xs2) -> Forall (fun a => a < x) xs1.
Proof.
  induction xs1 as [|a xs1 IH]; simpl; intros Hs; [constructor|].
  apply StronglySorted_inv in Hs. destruct Hs as [Hs Ha]. constructor.
  - rewrite Forall_app in Ha. destruct Ha as [_ Ha].
    inversion Ha; assumption.
  - apply IH. exact Hs.
Qed.

(** [Object.keys(structureCounts)] lists exactly the keys of the
    structures, in the order in which they are first seen. *)
Lemma keys_in_first_seen_order (l : list descriptor) :
  let keys := map fst (structureCounts l) in
  StronglySorted lt (map (fun k => first_seen k l) keys) /\
  (forall k, In k keys <-> In k (map structure_key l)).
Proof.
  induction l as [|s l [Hsorted Hkeys]] using rev_ind; simpl.
  - split; [constructor | intros k; reflexivity].
  - rewrite structureCounts_snoc.
    assert (map (fun k => first_seen k (l ++ [s])) (map fst (structureCounts l)) =
            map (fun k => first_seen k l) (map fst (structureCounts l))) as Hsame.
    { apply map_ext_in. intros k Hin. apply first_seen_app_in, Hkeys, Hin. }
    destruct (in_dec string_dec (structure_key s) (map fst (structureCounts l)))
      as [Hin|Hnin].
    + rewrite (keys_bump_in _ _ Hin), Hsame. split; [exact Hsorted|].
      intros k. rewrite map_app, in_app_iff, <- Hkeys. simpl.
      split; [auto | intros [H|[<-|[]]]; assumption].
    + rewrite (keys_bump_fresh _ _ Hnin), map_app, Hsame. split.
      * apply increasing_snoc; [exact Hsorted|]. simpl.
        rewrite first_seen_app_fresh; [|rewrite <- Hkeys; exact Hnin].
        simpl. rewrite String.eqb_refl, Nat.add_0_r.
        apply Forall_forall. intros x Hx. apply in_map_iff in Hx.
        destruct Hx as (k & <- & Hk). apply first_seen_bound, Hkeys, Hk.
      * intros k. rewrite map_app, !in_app_iff, <- Hkeys. reflexivity.
Qed.

(** The reducer keeps the later of two keys unless the earlier is strictly
    more frequent: it ends on the last key of greatest count. *)
Lemma fold_more_common (counts : list (string * nat)) (rest : list string) :
  forall (pre : list string) (acc : string) (mid : list string),
    Forall (fun a => count_of counts a <= count_of counts acc) pre ->
    Forall (fun a => count_of counts a < count_of counts acc) mid ->
    exists ks1 ks2,
      (pre ++ acc :: mid ++ rest)%list =
      (ks1 ++ fold_left (more_common counts) rest acc :: ks2)%list /\
      Forall (fun a => count_of counts a <=
                       count_of counts (fold_left (more_common counts) rest acc)) ks1 /\
      Forall (fun a => count_of counts a <
                       count_of counts (fold_left (more_common counts) rest acc)) ks2.
Proof.
  induction rest as [|b rest IH]; intros pre acc mid Hpre Hmid; simpl.
  - exists pre, mid. rewrite app_nil_r. auto.
  - destruct (Nat.lt_ge_cases (count_of counts b) (count_of counts acc)) as [Hlt|Hge].
    + assert (more_common counts acc b = acc) as ->.
      { unfold more_common. apply Nat.ltb_lt in Hlt. rewrite Hlt. reflexivity. }
      destruct (IH pre acc (mid ++ [b])%list Hpre) as (ks1 & ks2 & E & H1 & H2).
      { apply Forall_app. split; [exact Hmid | repeat constructor; exact Hlt]. }
      exists ks1, ks2. rewrite <- app_assoc in E. simpl in E. auto.
    + assert (more_common counts acc b = b) as ->.
      { unfold more_common. apply Nat.ltb_ge in Hge. rewrite Hge. reflexivity. }
      destruct (IH (pre ++ acc :: mid)%list b []) as (ks1 & ks2 & E & H1 & H2).
      { apply Forall_app. split.
        - eapply Forall_impl; [|exact Hpre]. simpl. intros; lia.
        - constructor; [exact Hge|].
          eapply Forall_impl; [|exact Hmid]. simpl. intros; lia. }
      { constructor. }
      exists ks1, ks2. rewrite <- app_assoc in E. simpl in E. auto.
Qed.

Lemma find_key_some (k : string) (l : list descriptor) :
  In k (map structure_key l) ->
  exists d, find (fun s => String.eqb (structure_key s) k) l = Some d /\
            structure_key d = k.
Proof.
  induction l as [|s l IH]; simpl; intros Hin; [contradiction|].
  destruct (String.eqb_spec (structure_key s) k) as [E|Hne]; [eauto|].
  destruct Hin as [E|Hin]; [contradiction | auto].
Qed.

(** On a non-empty list the reducer has a key to start from and ends on
    the last key of greatest count. *)
Lemma mostCommonKey_last_maximal (l : list descriptor) :
  l <> [] ->
  exists r ks1 ks2,
    mostCommonKey (structureCounts l) = Ok r /\
    map fst (structureCounts l) = (ks1 ++ r :: ks2)%list /\
    Forall (fun a => occurrences a l <= occurrences r l) ks1 /\
    Forall (fun a => occurrences a l < occurrences r l) ks2.
Proof.
  intros Hne. destruct (keys_in_first_seen_order l) as [_ Hkeys].
  unfold mostCommonKey.
  destruct (map fst (structureCounts l)) as [|k0 ks] eqn:Eks.
  { destruct l as [|s l]; [contradiction|].
    exfalso. apply (proj2 (Hkeys (structure_key s))). left. reflexivity. }
  destruct (fold_more_common (structureCounts l) ks [] k0 [])
    as (ks1 & ks2 & E & H1 & H2); [constructor | constructor |].
  simpl in E. exists (fold_left (more_common (structureCounts l)) ks k0), ks1, ks2.
  split; [reflexivity|]. split; [exact E|].
  split; [eapply Forall_impl; [|exact H1] | eapply Forall_impl; [|exact H2]];
    intros a; simpl; rewrite !count_of_structureCounts; intros H; exact H.
Qed.

Lemma mostCommonStructure_from_key (l : list descriptor) (r : string) :
  mostCommonKey (structureCounts l) = Ok r ->
  In r (map structure_key l) ->
  exists d, mostCommonStructure l = Ok d /\
            find (fun s => String.eqb (structure_key s) r) l = Some d /\
            structure_key d = r.
Proof.
  intros Hkey Hin. destruct (find_key_some r l Hin) as (d & Hfind & Hd).
  exists d. unfold mostCommonStructure. rewrite Hkey. cbn [bind]. rewrite Hfind.
  split; [destruct d; reflexivity | auto].
Qed.

(** The analyzer does not throw on a non-empty list. *)
Lemma mostCommonStructure_defined (l : list descriptor) :
  l <> [] -> exists d, mostCommonStructure l = Ok d.
Proof.
  intros Hne. destruct (mostCommonKey_last_maximal l Hne) as (r & ks1 & ks2 & Hkey & E & _).
  destruct (mostCommonStructure_from_key l r Hkey) as (d & Hd & _); [|eauto].
  apply (keys_in_first_seen_order l). rewrite E. apply in_elt.
Qed.

(** C1 (amended). For every non-empty list of location descriptors, two
    descriptors being in the same group when they agree on (type, path),
    the analyzer returns the first descriptor of a group of greatest size,
    and among groups tied for the greatest size it selects the one whose
    key was first seen LAST: every other key of greatest count is first
    seen earlier. *)
Theorem mostCommonStructure_last_maximal (l : list descriptor) :
  l <> [] ->
  exists d,
    mostCommonStructure l = Ok d /\
    find (fun s => String.eqb (structure_key s) (structure_key d)) l = Some d /\
    (forall a b, structure_key a = structure_key b <->
                 type a = type b /\ path a = path b) /\
    (forall d', In d' l ->
                occurrences (structure_key d') l <= occurrences (structure_key d) l) /\
    (forall d', In d' l ->
                occurrences (structure_key d') l = occurrences (structure_key d) l ->
                first_seen (structure_key d') l <= first_seen (structure_key d) l).
Proof.
  intros Hne.
  destruct (keys_in_first_seen_order l) as [Hsorted Hkeys].
  destruct (mostCommonKey_last_maximal l Hne) as (r & ks1 & ks2 & Hkey & E & H1 & H2).
  assert (forall k, In k (map structure_key l) ->
                    In k ks1 \/ k = r \/ In k ks2) as Hcases.
  { intros k Hk. apply Hkeys in Hk. rewrite E in Hk.
    apply in_app_or in Hk. destruct Hk as [Hk|[Hk|Hk]]; auto. }
  destruct (mostCommonStructure_from_key l r Hkey) as (d & Hd & Hfind & Hr).
  { apply Hkeys. rewrite E. apply in_elt. }
  exists d. rewrite Hr. rewrite Forall_forall in H1, H2.
  split; [exact Hd|]. split; [exact Hfind|].
  split; [exact structure_key_inj|]. split.
  - intros d' Hin.
    destruct (Hcases (structure_key d') (in_map _ _ _ Hin)) as [Hk|[->|Hk]].
    + apply H1, Hk.
    + apply Nat.le_refl.
    + apply Nat.lt_le_incl, H2, Hk.
  - intros d' Hin Heq.
    destruct (Hcases (structure_key d') (in_map _ _ _ Hin)) as [Hk|[->|Hk]].
    + rewrite E, map_app in Hsorted. simpl in Hsorted.
      apply increasing_middle in Hsorted. rewrite Forall_forall in Hsorted.
      apply Nat.lt_le_incl, Hsorted.
      exact (in_map (fun k => first_seen k l) ks1 _ Hk).
    + apply Nat.le_refl.
    + specialize (H2 _ Hk). rewrite Heq in H2. exfalso. exact (Nat.lt_irrefl _ H2).
Qed.

(** *** The first pass over the sample *)

Lemma findPromptInData_found (r : string) (patterns : list pattern) (data : value) :
  findPromptInData r patterns data = Ok (found (findPromptInData r patterns data)).
Proof.
  destruct (findPromptInData_total r patterns data) as [o E]. rewrite E.
  destruct o; reflexivity.
Qed.

Lemma first_pass_verdict (index : nat) (log : obj) :
  first_pass {| logIndex := index;
                input := lookup_prop log "input";
                hasSystemPrompt := false;
                hasUserPrompt := false;
                systemPromptLocation := None;
                userPromptLocation := None |} = Ok (verdict index log).
Proof.
  unfold first_pass, verdict, system_matched, user_matched, user_location,
    system_location, findSystemPromptInData, findUserPromptInData.
  cbn [input logIndex hasSystemPrompt hasUserPrompt systemPromptLocation
       userPromptLocation].
  destruct (findPromptInData_total "system" systemPatterns (lookup_prop log "input"))
    as [os ->].
  destruct (findPromptInData_total "user" userPatterns (lookup_prop log "input"))
    as [ou ->].
  destruct os, ou; reflexivity.
Qed.

Lemma first_pass_records (logs : list obj) :
  forall index : nat,
    (data <- analysisData_from (map VObj logs) index ;; forEachM first_pass data) =
    Ok (verdicts logs index).
Proof.
  induction logs as [|log logs IH]; intros index; [reflexivity|].
  specialize (IH (S index)). simpl in *.
  destruct (analysisData_from (map VObj logs) (S index)) as [tl|e];
    [|discriminate].
  simpl in *. rewrite first_pass_verdict. simpl. rewrite IH. reflexivity.
Qed.

Lemma analyse_records (logs : list obj) :
  analyse (VArr (map VObj logs)) =
  Ok (verdicts (firstn (Nat.min 3 (List.length logs)) logs) 0).
Proof.
  unfold analyse. cbn [sampleLogs bind].
  rewrite length_map, firstn_map. apply first_pass_records.
Qed.

Lemma located_some (l : list descriptor) : located (map Some l) = Ok l.
Proof. induction l as [|d l IH]; simpl; [|rewrite IH]; reflexivity. Qed.

Section Flagged.

Variable flag : analysis -> bool.
Variable location : analysis -> option descriptor.
Variable judged : obj -> option descriptor.
Hypothesis flag_verdict :
  forall i log, flag (verdict i log) = is_some (judged log).
Hypothesis location_verdict :
  forall i log, location (verdict i log) = judged log.

Lemma flagged_locations (sample : list obj) :
  forall index : nat,
    map location (filter flag (verdicts sample index)) =
    map Some (somes (map judged (filter (fun log => is_some (judged log)) sample))).
Proof using flag_verdict location_verdict.
  induction sample as [|log sample IH]; intros index; [reflexivity|].
  cbn [verdicts filter]. rewrite flag_verdict.
  destruct (judged log) as [d|] eqn:J; cbn [is_some].
  - cbn [map somes]. rewrite location_verdict, J, IH. reflexivity.
  - apply IH.
Qed.

Lemma flagged_length (sample : list obj) :
  forall index : nat,
    List.length (filter flag (verdicts sample index)) =
    List.length (filter (fun log => is_some (judged log)) sample).
Proof using flag_verdict.
  induction sample as [|log sample IH]; intros index; [reflexivity|].
  cbn [verdicts filter]. rewrite flag_verdict.
  destruct (is_some (judged log)); simpl; rewrite IH; reflexivity.
Qed.

Lemma somes_length (sample : list obj) :
  List.length (somes (map judged (filter (fun log => is_some (judged log)) sample))) =
  List.length (filter (fun log => is_some (judged log)) sample).
Proof.
  induction sample as [|log sample IH]; [reflexivity|].
  cbn [filter]. destruct (judged log) as [d|] eqn:J; cbn [is_some].
  - cbn [map somes]. rewrite J. simpl. rewrite IH. reflexivity.
  - exact IH.
Qed.

End Flagged.

Lemma nonempty_of_length {A : Type} (l : list A) : 2 <= List.length l -> l <> [].
Proof. destruct l; simpl; [lia | discriminate]. Qed.

(** The orchestrator reads nothing beyond the first three logs. *)
Lemma detect_sample_only (items items' : list value) (model : value) (w : world) :
  firstn 3 items = firstn 3 items' ->
  detectSystemPromptStructure (VArr items) model w =
  detectSystemPromptStructure (VArr items') model w.
Proof.
  intros E.
  assert (forall l : list value, firstn (Nat.min 3 (List.length l)) l = firstn 3 l) as H.
  { intros l. destruct (Nat.le_gt_cases 3 (List.length l)).
    - rewrite Nat.min_l by assumption. reflexivity.
    - rewrite Nat.min_r by lia. rewrite !firstn_all2 by lia. reflexivity. }
  unfold detectSystemPromptStructure, detect_body, analyse, sampleLogs.
  rewrite !H, E. reflexivity.
Qed.

(** C2. For every list of log records and every model, the orchestrator
    examines only the first min(3, len(logs)) logs.  A sampled log has a
    system-prompt match when the system matcher returns a descriptor for
    its input, and a user-prompt match when the orchestrator's user
    matching does (the user matcher, consulted where the system matcher
    found nothing).  If at least 2 sampled logs have a system-prompt match
    the result is the consensus structure of their locations with
    confidence exactly 0.9 and promptType "system"; otherwise, if at least
    2 have a user-prompt match, the consensus structure of those with
    confidence exactly 0.8 and promptType "user". *)
Theorem detect_local_consensus (logs : list obj) (model : value) (w : world) :
  let sample := firstn (Nat.min 3 (List.length logs)) logs in
  let with_system := filter system_matched sample in
  let with_user := filter user_matched sample in
  (forall logs' : list obj,
      firstn 3 logs' = firstn 3 logs ->
      detectSystemPromptStructure (VArr (map VObj logs')) model w =
      detectSystemPromptStructure (VArr (map VObj logs)) model w) /\
  (2 <= List.length with_system ->
   exists d,
     mostCommonStructure (somes (map system_location with_system)) = Ok d /\
     detectSystemPromptStructure (VArr (map VObj logs)) model w =
     (Ok (Built {| structure := Some d;
                   confidence := 0.9;
                   reasoning := "Detected consistent system prompt structure across "
                                ++ decimal (List.length with_system) ++ " logs";
                   promptType := Some system |}), w)) /\
  (List.length with_system < 2 ->
   2 <= List.length with_user ->
   exists d,
     mostCommonStructure (somes (map user_location with_user)) = Ok d /\
     detectSystemPromptStructure (VArr (map VObj logs)) model w =
     (Ok (Built {| structure := Some d;
                   confidence := 0.8;
                   reasoning := "Detected consistent user prompt structure across "
                                ++ decimal (List.length with_user)
                                ++ " logs (no system prompt found)";
                   promptType := Some user |}), w)).
Proof.
  intros sample with_system with_user.
  assert (forall i log, hasSystemPrompt (verdict i log) = is_some (system_location log))
    as Fs by reflexivity.
  assert (forall i log, systemPromptLocation (verdict i log) = system_location log)
    as Ls by reflexivity.
  assert (forall i log, hasUserPrompt (verdict i log) = is_some (user_location log))
    as Fu by reflexivity.
  assert (forall i log, userPromptLocation (verdict i log) = user_location log)
    as Lu by reflexivity.
  split; [|split].
  - intros logs' E. apply detect_sample_only.
    rewrite !firstn_map. f_equal. exact E.
  - intros H2.
    destruct (mostCommonStructure_defined (somes (map system_location with_system)))
      as (d & Hd).
    { apply nonempty_of_length. unfold with_system, system_matched.
      rewrite somes_length. exact H2. }
    exists d. split; [exact Hd|].
    unfold detectSystemPromptStructure, detect_body.
    rewrite analyse_records. fold sample.
    rewrite (flagged_length _ _ Fs). fold system_matched. fold with_system.
    apply Nat.leb_le in H2. rewrite H2.
    unfold analyzeSystemPromptPattern, system_consensus.
    rewrite (flagged_locations _ _ _ Fs Ls), (flagged_length _ _ Fs).
    fold system_matched. fold with_system.
    rewrite located_some. cbn [bind]. rewrite Hd. reflexivity.
  - intros Hlt H2.
    destruct (mostCommonStructure_defined (somes (map user_location with_user)))
      as (d & Hd).
    { apply nonempty_of_length. unfold with_user, user_matched.
      rewrite somes_length. exact H2. }
    exists d. split; [exact Hd|].
    unfold detectSystemPromptStructure, detect_body.
    rewrite analyse_records. fold sample.
    rewrite (flagged_length _ _ Fs). fold system_matched. fold with_system.
    apply Nat.leb_gt in Hlt. rewrite Hlt.
    rewrite (flagged_length _ _ Fu). fold user_matched. fold with_user.
    apply Nat.leb_le in H2. rewrite H2.
    unfold analyzeUserPromptPattern, user_consensus.
    rewrite (flagged_locations _ _ _ Fu Lu), (flagged_length _ _ Fu).
    fold user_matched. fold with_user.
    rewrite located_some. cbn [bind]. rewrite Hd. reflexivity.
Qed.

(** *** The fallback on the text-generation service *)



(** C10. The detection result does not depend on the model argument: for
    every logs value and any two models, run against the same world (the
    text-generation collaborator behaving identically), the two calls
    settle alike and leave the same world. *)
Theorem detect_ignores_model (logs m1 m2 : value) (w : world) :
  detectSystemPromptStructure logs m1 w = detectSystemPromptStructure logs m2 w.
Proof. reflexivity. Qed.

(** *** What the [catch] clause can and cannot absorb *)

Lemma get_prop_defined (e : value) (key : string) :
  not_nullish e -> get_prop e key = Ok (peek e key).
Proof.
  intros [Hu Hn]. unfold peek.
  destruct e; try congruence; simpl; split_reads; reflexivity.
Qed.

Lemma error_readable (name message : string) : legible (VError name message).
Proof. split; [split; discriminate | reflexivity]. Qed.

Lemma get_prop_throws (v : value) (key : string) : throws_readable (get_prop v key).
Proof.
  intros e. destruct v; simpl; split_reads; try discriminate;
    intros H; injection H as <-; apply error_readable.
Qed.

Lemma bind_throws {A B : Type} (c : result A) (k : A -> result B) :
  throws_readable c -> (forall a, throws_readable (k a)) ->
  throws_readable (x <- c ;; k x).
Proof.
  intros Hc Hk e. destruct c as [a|e']; simpl.
  - apply Hk.
  - intros H. injection H as <-. apply Hc. reflexivity.
Qed.

Lemma ok_throws {A : Type} (a : A) : throws_readable (Ok a).
Proof. intros e H. discriminate. Qed.

Lemma located_throws (l : list (option descriptor)) : throws_readable (located l).
Proof.
  induction l as [|[d|] l IH]; simpl.
  - apply ok_throws.
  - apply bind_throws; [exact IH | intros; apply ok_throws].
  - intros e H. injection H as <-. apply error_readable.
Qed.

Lemma mostCommonStructure_throws (l : list descriptor) :
  throws_readable (mostCommonStructure l).
Proof.
  unfold mostCommonStructure, mostCommonKey.
  destruct (map fst (structureCounts l)); simpl.
  - intros e H. injection H as <-. apply error_readable.
  - destruct (find _ l); [apply ok_throws|].
    intros e H. injection H as <-. apply error_readable.
Qed.

#[local] Hint Resolve ok_throws error_readable get_prop_throws located_throws
  mostCommonStructure_throws bind_throws : throws.

Lemma first_pass_total (data : analysis) : exists data', first_pass data = Ok data'.
Proof.
  unfold first_pass, findSystemPromptInData, findUserPromptInData.
  destruct (findPromptInData_total "system" systemPatterns (input data)) as [[d|] ->];
    simpl; [eauto|].
  destruct (findPromptInData_total "user" userPatterns (input data)) as [[d|] ->];
    simpl; eauto.
Qed.

Lemma forEachM_first_pass_total (l : list analysis) :
  exists l', forEachM first_pass l = Ok l'.
Proof.
  induction l as [|x l [l' IH]]; simpl; [eauto|].
  destruct (first_pass_total x) as [y ->]. simpl. rewrite IH. simpl. eauto.
Qed.

Lemma analysisData_from_throws (sample : list value) :
  forall index, throws_readable (analysisData_from sample index).
Proof.
  induction sample as [|log sample IH]; intros index; simpl; [apply ok_throws|].
  apply bind_throws; [apply get_prop_throws|]. intros i.
  apply bind_throws; [apply IH | intros; apply ok_throws].
Qed.

Lemma analyse_throws (logs : value) : throws_readable (analyse logs).
Proof.
  unfold analyse. apply bind_throws.
  - destruct logs; simpl; try (intros e H; injection H as <-; apply error_readable).
    apply ok_throws.
  - intros sample. apply bind_throws; [apply analysisData_from_throws|].
    intros data e H. destruct (forEachM_first_pass_total data) as [l' E].
    rewrite E in H. discriminate.
Qed.

(** Every value the [try] block can throw is legible, as long as the
    collaborator rejects with legible values only. *)
Lemma detect_body_throws (logs : value) (w : world) :
  (forall req x e, fst (generateAIResponse req x) = Throw e -> legible e) ->
  throws_readable (fst (detect_body logs w)).
Proof.
  intros Hai. unfold detect_body.
  destruct (analyse logs) as [data|e] eqn:A.
  - destruct (2 <=? _).
    + simpl. unfold analyzeSystemPromptPattern. auto 6 with throws.
    + destruct (2 <=? _).
      * simpl. unfold analyzeUserPromptPattern. auto 6 with throws.
      * unfold ask.
        destruct (generateAIResponse (analysis_request data) (ext w))
          as [response ext'] eqn:G.
        simpl. apply bind_throws.
        { intros e H. apply (Hai (analysis_request data) (ext w)).
          rewrite G. exact H. }
        intros r. apply bind_throws; [apply get_prop_throws|].
        intros text. apply bind_throws; [|intros; apply ok_throws].
        unfold parse. destruct (JSON_parse _); [apply ok_throws|].
        intros e H. injection H as <-. apply error_readable.
  - simpl. intros e' H. injection H as <-. apply (analyse_throws logs). exact A.
Qed.

(** With a collaborator that rejects with legible values only, the
    promise always resolves, and a throw of the [try] block is converted
    into the zero-confidence record. *)
Lemma detect_resolves (logs model : value) (w : world) :
  (forall req x e, fst (generateAIResponse req x) = Throw e -> legible e) ->
  (exists r, fst (detectSystemPromptStructure logs model w) = Ok r) /\
  (forall error, fst (detect_body logs w) = Throw error ->
      fst (detectSystemPromptStructure logs model w) =
      Ok (Built {| structure := None;
                   confidence := 0;
                   reasoning := "Error during detection: "
                                ++ ToString (peek error "message");
                   promptType := None |})).
Proof.
  intros Hai. pose proof (detect_body_throws logs w Hai) as Hbody.
  unfold detectSystemPromptStructure.
  destruct (detect_body logs w) as [[r|error] w'] eqn:B; simpl in *.
  - split; [eauto | discriminate].
  - unfold detection_failure, to_text.
    destruct (Hbody error eq_refl) as [Hread Hshown].
    rewrite (get_prop_defined error "message" Hread). cbn [bind].
    rewrite Hshown. cbn [bind].
    split; [eauto|]. intros err H. injection H as <-. reflexivity.
Qed.

(** *** Persistence *)

Lemma lookup_set_prop_same (o : obj) (key : string) (v : value) :
  lookup_prop (set_prop o key v) key = v.
Proof.
  induction o as [|[k old] o IH]; simpl.
  - rewrite String.eqb_refl. reflexivity.
  - destruct (String.eqb_spec k key) as [->|Hne]; simpl.
    + rewrite String.eqb_refl. reflexivity.
    + destruct (String.eqb_spec k key); [contradiction | exact IH].
Qed.

Lemma lookup_set_prop_other (o : obj) (key k' : string) (v : value) :
  k' <> key -> lookup_prop (set_prop o key v) k' = lookup_prop o k'.
Proof.
  intros Hne. induction o as [|[k old] o IH]; simpl.
  - destruct (String.eqb_spec key k'); [congruence | reflexivity].
  - destruct (String.eqb_spec k key) as [->|Hk]; simpl.
    + destruct (String.eqb_spec key k'); [congruence | reflexivity].
    + destruct (String.eqb_spec k k'); [reflexivity | exact IH].
Qed.

(** C8. For every model and structure, the persistence operation sets the
    model's systemPromptStructure field to the given structure (leaving the
    other fields alone), invokes the external save operation on the model
    so updated, and resolves with that model; if the save fails, the error
    it failed with propagates unchanged to the caller. *)
Theorem update_sets_saves_returns (model : obj) (structure : value) (st : Store) :
  let run := updateModelSystemPromptStructure model structure st in
  let updated := set_prop model "systemPromptStructure" structure in
  model_after run = updated /\
  lookup_prop updated "systemPromptStructure" = structure /\
  (forall key, key <> "systemPromptStructure" ->
               lookup_prop updated key = lookup_prop model key) /\
  store_after run = snd (save updated st) /\
  (fst (save updated st) = Ok tt -> settled run = Ok updated) /\
  (forall error, fst (save updated st) = Throw error -> settled run = Throw error).
Proof.
  intros run updated. unfold run, updateModelSystemPromptStructure. fold updated.
  destruct (save updated st) as [[[]|error] st']; simpl;
    (split; [reflexivity|]);
    (split; [apply lookup_set_prop_same|]);
    (split; [intros key Hne; apply lookup_set_prop_other; exact Hne|]);
    (split; [reflexivity|]); split; congruence.
Qed.

(** C9. The persistence operation is not atomic on error: if the external
    save operation throws, the model's systemPromptStructure field has
    already been overwritten with the new structure (it is what save was
    given), the error propagates, and nothing is rolled back: after the
    failed call the in-memory model carries the new structure. *)
Theorem update_not_rolled_back
  (model : obj) (structure error : value) (st : Store) :
  fst (save (set_prop model "systemPromptStructure" structure) st) = Throw error ->
  let run := updateModelSystemPromptStructure model structure st in
  settled run = Throw error /\
  lookup_prop (model_after run) "systemPromptStructure" = structure.
Proof.
  intros Hfail run. unfold run, updateModelSystemPromptStructure.
  destruct (save (set_prop model "systemPromptStructure" structure) st)
    as [[u|e] st']; simpl in *; [discriminate|].
  injection Hfail as ->. split; [reflexivity | apply lookup_set_prop_same].
Qed.

(** ** Further facts about the service *)

(** *** Resolution composes *)

Lemma split_app (sep : ascii) (p q : string) :
  split sep (p ++ String sep q) = (split sep p ++ split sep q)%list.
Proof.
  induction p as [|c p IH]; simpl.
  - rewrite Ascii.eqb_refl. reflexivity.
  - destruct (Ascii.eqb c sep); [rewrite IH; reflexivity|].
    rewrite IH. destruct (split sep p) as [|piece pieces] eqn:E; [|reflexivity].
    exfalso. exact (split_nonempty sep p E).
Qed.

Lemma reduceM_app {A B : Type} (f : A -> B -> result A) (l1 l2 : list B) (a : A) :
  reduceM f (l1 ++ l2)%list a = (b <- reduceM f l1 a ;; reduceM f l2 b).
Proof.
  revert a. induction l1 as [|x l1 IH]; intros a; simpl; [reflexivity|].
  destruct (f a x) as [a'|e]; simpl; [apply IH | reflexivity].
Qed.

(** X1. Resolving "p.q" is resolving p and then q from the value reached,
    for any two paths p and q; in particular, when p leads to a falsy value
    (null, 0, false, the empty string or undefined) "p.q" resolves to
    undefined instead of failing. *)
Theorem getNestedValue_compose (o : value) (p q : string) :
  getNestedValue o (p ++ "." ++ q) =
  (reached <- getNestedValue o p ;; getNestedValue reached q) /\
  (forall reached,
      getNestedValue o p = Ok reached -> truthy reached = false ->
      getNestedValue o (p ++ "." ++ q) = Ok VUndefined).
Proof.
  assert (getNestedValue o (p ++ "." ++ q) =
          (reached <- getNestedValue o p ;; getNestedValue reached q)) as E.
  { unfold getNestedValue. change (p ++ "." ++ q) with (p ++ String "." q).
    rewrite split_app. apply reduceM_app. }
  split; [exact E|].
  intros reached Hp Hfalsy. rewrite E, Hp. cbn [bind].
  rewrite getNestedValue_walk. f_equal.
  destruct (split "." q) as [|key keys] eqn:S; [exfalso; exact (split_nonempty "." q S)|].
  simpl. unfold walk at 2. rewrite Hfalsy. apply walk_undefined.
Qed.

(** *** The user-prompt matcher *)

(** X2. For every array input, if some element is an object with role
    "user" and a non-empty (truthy) content, the user-prompt matcher
    returns, for the first such index i, the descriptor
    {path: "[i].content", type: "array", field: "content", arrayIndex: i,
    parentField: "role"}. *)
Theorem findUserPromptInData_array
  (items : list value) (i : nat) (item : value) :
  nth_error items i = Some item ->
  role_message "user" item ->
  (forall j earlier, j < i -> nth_error items j = Some earlier ->
                     ~ role_message "user" earlier) ->
  findUserPromptInData (VArr items) =
  Ok (Some {| path := "[" ++ decimal i ++ "].content";
              type := array;
              field := "content";
              arrayIndex := Some i;
              parentField := Some "role" |}).
Proof.
  intros Hn Hm Hfirst. unfold findUserPromptInData, findPromptInData. simpl.
  rewrite (scan_messages_first "user" items 0 i item Hn Hm Hfirst).
  reflexivity.
Qed.

(** X3. For every object input with no array-pattern match, the
    user-prompt matcher probes the dotted paths input.content, content,
    userMessage, query, text, message, input.query, input.text in exactly
    that order and returns the nested descriptor of the first path whose
    resolved value is a string longer than 10 characters; if no path
    qualifies it returns no match. *)
Theorem findUserPromptInData_nested :
  map pat_path userPatterns =
  [ "input.content"; "content"; "userMessage"; "query"; "text"; "message";
    "input.query"; "input.text" ] /\
  forall data : value,
    truthy data = true ->
    typeof data = "object" ->
    (forall items item, data = VArr items -> In item items ->
                        ~ role_message "user" item) ->
    (forall before p after,
        userPatterns = (before ++ p :: after)%list ->
        (forall q, In q before -> ~ qualifies data (pat_path q)) ->
        qualifies data (pat_path p) ->
        findUserPromptInData data =
        Ok (Some {| path := pat_path p;
                    type := nested;
                    field := pat_field p;
                    arrayIndex := None;
                    parentField := pat_parentField p |})) /\
    ((forall q, In q userPatterns -> ~ qualifies data (pat_path q)) ->
     findUserPromptInData data = Ok None).
Proof.
  split; [reflexivity|].
  intros data T O Harr.
  assert (match data with
          | VArr items => scan_messages "user" items 0
          | _ => Ok None
          end = Ok None) as Hscan.
  { destruct data; try reflexivity.
    apply scan_messages_none. intros item Hin. exact (Harr items item eq_refl Hin). }
  unfold findUserPromptInData, findPromptInData.
  rewrite T. cbn [negb]. rewrite Hscan. cbn [bind].
  rewrite O, String.eqb_refl. split.
  - intros before p after E Hno Hp. rewrite E.
    apply (probe_patterns_first data before p after Hno Hp).
  - apply probe_patterns_none.
Qed.

(** *** What the matchers accept and what a match guarantees *)

(** X4. An input that is falsy (undefined, null, false, 0, the empty
    string) or not an object (a string, however long, a number, a boolean)
    matches neither matcher: both return no match and neither throws. *)
Theorem matchers_reject_non_objects (data : value) :
  truthy data = false \/ typeof data <> "object" ->
  findSystemPromptInData data = Ok None /\ findUserPromptInData data = Ok None.
Proof.
  intros H. unfold findSystemPromptInData, findUserPromptInData, findPromptInData.
  destruct (truthy data) eqn:T; [|split; reflexivity].
  destruct H as [H|H]; [discriminate|]. cbn [negb].
  destruct data; simpl in *; try (exfalso; apply H; reflexivity);
    split; reflexivity.
Qed.

Lemma scan_messages_none_inv (r : string) (items : list value) :
  forall start : nat,
    scan_messages r items start = Ok None ->
    forall item, In item items -> ~ role_message r item.
Proof.
  induction items as [|x items IH]; intros start Hscan item Hin; [contradiction|].
  simpl in Hscan.
  destruct (message_matches_total r x) as [[|] Hx]; rewrite Hx in Hscan;
    simpl in Hscan; [discriminate|].
  destruct Hin as [<-|Hin].
  - intros Hm. apply message_matches_true in Hm. rewrite Hm in Hx. discriminate.
  - exact (IH (S start) Hscan item Hin).
Qed.

Lemma scan_messages_some (r : string) (items : list value) :
  forall (start : nat) (d : descriptor),
    scan_messages r items start = Ok (Some d) ->
    exists i item,
      d = array_descriptor (start + i) /\
      nth_error items i = Some item /\
      role_message r item /\
      (forall j earlier, j < i -> nth_error items j = Some earlier ->
                         ~ role_message r earlier).
Proof.
  induction items as [|x items IH]; intros start d Hscan; [discriminate|].
  simpl in Hscan.
  destruct (message_matches_total r x) as [[|] Hx]; rewrite Hx in Hscan;
    simpl in Hscan.
  - injection Hscan as <-. exists 0, x. rewrite Nat.add_0_r.
    split; [reflexivity|]. split; [reflexivity|].
    split; [apply message_matches_true; exact Hx|]. intros j earlier Hj. lia.
  - destruct (IH (S start) d Hscan) as (i & item & -> & Hn & Hm & Hfirst).
    exists (S i), item. rewrite Nat.add_succ_r.
    split; [reflexivity|]. split; [exact Hn|]. split; [exact Hm|].
    intros [|j] earlier Hj He; simpl in He.
    + injection He as <-. intros Hm'. apply message_matches_true in Hm'.
      rewrite Hm' in Hx. discriminate.
    + apply (Hfirst j earlier); [lia | exact He].
Qed.

Lemma probe_patterns_some (data : value) (patterns : list pattern) (d : descriptor) :
  probe_patterns data patterns = Ok (Some d) ->
  exists p, In p patterns /\ d = nested_descriptor p /\ qualifies data (pat_path p).
Proof.
  induction patterns as [|q patterns IH]; simpl; [discriminate|].
  rewrite getNestedValue_walk. simpl.
  destruct (long_string (fold_left walk (split "." (pat_path q)) data)) eqn:L.
  - intros H. injection H as <-. exists q.
    split; [left; reflexivity|]. split; [reflexivity|].
    apply long_string_qualifies. exact L.
  - intros H. destruct (IH H) as (p & Hin & Hd & Hq). exists p. auto.
Qed.

Lemma findPromptInData_some (r : string) (patterns : list pattern)
  (data : value) (d : descriptor) :
  findPromptInData r patterns data = Ok (Some d) ->
  (exists items i item,
      data = VArr items /\ d = array_descriptor i /\
      nth_error items i = Some item /\ role_message r item /\
      (forall j earlier, j < i -> nth_error items j = Some earlier ->
                         ~ role_message r earlier)) \/
  (exists p, In p patterns /\ d = nested_descriptor p /\
             qualifies data (pat_path p)).
Proof.
  unfold findPromptInData. destruct (negb (truthy data)); [discriminate|].
  destruct data as [| | b | q | s | items | props | n m]; simpl;
    try discriminate;
    try (intros H; right; exact (probe_patterns_some _ _ _ H)).
  destruct (scan_messages_total r items 0) as [[d'|] Hs]; rewrite Hs; simpl.
  - intros H. injection H as <-. left.
    destruct (scan_messages_some r items 0 d' Hs) as (i & item & Hd & Hrest).
    exists items, i, item. auto.
  - intros H. right. exact (probe_patterns_some _ _ _ H).
Qed.

(** No candidate path of either table reaches anything in an array. *)
Lemma probe_patterns_array (items : list value) :
  probe_patterns (VArr items) systemPatterns = Ok None /\
  probe_patterns (VArr items) userPatterns = Ok None.
Proof. split; reflexivity. Qed.

Lemma findPromptInData_array_none (r : string) (patterns : list pattern)
  (items : list value) :
  probe_patterns (VArr items) patterns = Ok None ->
  (findPromptInData r patterns (VArr items) = Ok None <->
   forall item, In item items -> ~ role_message r item).
Proof.
  intros Hprobe. unfold findPromptInData. cbn [truthy negb typeof].
  rewrite String.eqb_refl. split.
  - destruct (scan_messages_total r items 0) as [[d|] Hs]; rewrite Hs; cbn [bind];
      [discriminate|].
    intros _. exact (scan_messages_none_inv r items 0 Hs).
  - intros Hno. rewrite (scan_messages_none r items 0 Hno). cbn [bind].
    exact Hprobe.
Qed.

Lemma findPromptInData_array_some (r : string) (patterns : list pattern)
  (items : list value) (d : descriptor) :
  probe_patterns (VArr items) patterns = Ok None ->
  findPromptInData r patterns (VArr items) = Ok (Some d) ->
  type d = array.
Proof.
  intros Hprobe H. destruct (findPromptInData_some r patterns _ d H)
    as [(items' & i & item & _ & -> & _) | (p & Hin & Hd & Hq)]; [reflexivity|].
  exfalso. unfold findPromptInData in H. cbn [truthy negb typeof] in H.
  rewrite String.eqb_refl in H.
  destruct (scan_messages_total r items 0) as [[d'|] Hs]; rewrite Hs in H;
    cbn [bind] in H.
  - injection H as <-.
    destruct (scan_messages_some r items 0 d' Hs) as (i & item & Hd' & _).
    rewrite Hd' in Hd. discriminate Hd.
  - rewrite Hprobe in H. discriminate H.
Qed.

(** X5. On an array input the matchers only ever see the role scan: the
    system-prompt (user-prompt) matcher returns no match exactly when no
    element is an object with role "system" ("user") and truthy content,
    and a match is always of type "array", never "nested". *)
Theorem matchers_on_arrays (items : list value) :
  (findSystemPromptInData (VArr items) = Ok None <->
   forall item, In item items -> ~ role_message "system" item) /\
  (findUserPromptInData (VArr items) = Ok None <->
   forall item, In item items -> ~ role_message "user" item) /\
  (forall d, findSystemPromptInData (VArr items) = Ok (Some d) -> type d = array) /\
  (forall d, findUserPromptInData (VArr items) = Ok (Some d) -> type d = array).
Proof.
  destruct (probe_patterns_array items) as [Ps Pu].
  split; [exact (findPromptInData_array_none "system" systemPatterns items Ps)|].
  split; [exact (findPromptInData_array_none "user" userPatterns items Pu)|].
  split; intros d.
  - exact (findPromptInData_array_some "system" systemPatterns items d Ps).
  - exact (findPromptInData_array_some "user" userPatterns items d Pu).
Qed.

(** X6. A match is sound.  Whatever either matcher returns for an input
    points at a prompt in that input: an array descriptor carries the index
    of the first element that is a message of the role with truthy content,
    a nested descriptor a path of the matcher's table whose value there is
    a string longer than 10 characters; the type "direct" is never
    returned. *)
Theorem matches_are_sound (data : value) (d : descriptor) :
  (findSystemPromptInData data = Ok (Some d) ->
   points_at_prompt "system" systemPatterns data d /\ type d <> direct) /\
  (findUserPromptInData data = Ok (Some d) ->
   points_at_prompt "user" userPatterns data d /\ type d <> direct).
Proof.
  assert (forall r patterns,
             findPromptInData r patterns data = Ok (Some d) ->
             points_at_prompt r patterns data d /\ type d <> direct) as H.
  { intros r patterns Hfind.
    pose proof (findPromptInData_some r patterns data d Hfind) as Hp.
    split; [exact Hp|].
    destruct Hp as [(items & i & item & _ & -> & _) | (p & _ & -> & _)];
      discriminate. }
  split; apply H.
Qed.

Lemma array_path_unresolved (items : list value) (i : nat) :
  getNestedValue (VArr items) (path (array_descriptor i)) = Ok VUndefined.
Proof.
  rewrite getNestedValue_walk. f_equal. cbn [path array_descriptor].
  change ("[" ++ decimal i ++ "].content")
    with (String "[" (decimal i ++ "].content")).
  cbn [split]. change (Ascii.eqb "[" ".") with false. cbv iota.
  destruct (split "." (decimal i ++ "].content")) as [|piece pieces] eqn:S;
    [exfalso; exact (split_nonempty _ _ S)|].
  cbn [fold_left].
  replace (walk (VArr items) (String "[" piece)) with VUndefined;
    [apply walk_undefined|].
  unfold walk, peek, get_prop, index_of_key. cbn [truthy].
  change (String.eqb (String "[" piece) "length") with false. cbv iota.
  change (NilZero.uint_of_string (String "[" piece))
    with (uint_of_char "[" (NilEmpty.uint_of_string piece)).
  destruct (NilEmpty.uint_of_string piece); reflexivity.
Qed.

(** X7. Reading a match back with the module's own path resolver: the
    path of a nested descriptor resolves, on the input it was found in, to
    the matched string (longer than 10 characters); the path of an array
    descriptor, "[i].content", does not resolve: getNestedValue yields
    undefined for it. *)
Theorem descriptor_path_read_back (data : value) (d : descriptor) :
  findSystemPromptInData data = Ok (Some d) \/
  findUserPromptInData data = Ok (Some d) ->
  (type d = nested ->
   exists s, getNestedValue data (path d) = Ok (VStr s) /\ 10 < String.length s) /\
  (type d = array -> getNestedValue data (path d) = Ok VUndefined).
Proof.
  intros H.
  assert (exists r patterns, points_at_prompt r patterns data d) as (r & patterns & Hp).
  { destruct H as [H|H]; [exists "system", systemPatterns | exists "user", userPatterns];
      exact (findPromptInData_some _ _ data d H). }
  destruct Hp as [(items & i & item & -> & -> & _) | (p & _ & -> & Hq)]; split.
  - discriminate.
  - intros _. apply array_path_unresolved.
  - intros _. exact Hq.
  - discriminate.
Qed.

(** *** The consensus analyzer beyond ties *)

Lemma majority_key (l : list descriptor) (k : string) :
  In k (map structure_key l) ->
  (forall k', In k' (map structure_key l) -> k' <> k ->
              occurrences k' l < occurrences k l) ->
  exists d, mostCommonStructure l = Ok d /\ structure_key d = k /\
            find (fun s => String.eqb (structure_key s) k) l = Some d.
Proof.
  intros Hin Hmajor.
  assert (l <> []) as Hne by (destruct l; [contradiction | discriminate]).
  destruct (mostCommonKey_last_maximal l Hne) as (r & ks1 & ks2 & Hkey & E & H1 & H2).
  destruct (keys_in_first_seen_order l) as [_ Hkeys].
  assert (In r (map structure_key l)) as Hr.
  { apply Hkeys. rewrite E. apply in_elt. }
  assert (r = k) as ->.
  { destruct (string_dec r k) as [|Hrk]; [assumption|]. exfalso.
    pose proof (Hmajor r Hr Hrk) as Hlt.
    apply Hkeys in Hin. rewrite E in Hin. rewrite Forall_forall in H1, H2.
    apply in_app_or in Hin. destruct Hin as [Hin|[Hin|Hin]].
    - specialize (H1 _ Hin). lia.
    - congruence.
    - specialize (H2 _ Hin). lia. }
  destruct (mostCommonStructure_from_key l k Hkey Hr) as (d & Hd & Hfind & Hk).
  exists d. auto.
Qed.

(** X8. When one (type, path) group is strictly larger than every other
    group of the list, the analyzer returns the first descriptor of that
    group, and the order of the list does not matter: on every permutation
    of the list it returns a descriptor of the same group. *)
Theorem strict_majority_wins (l : list descriptor) (k : string) :
  In k (map structure_key l) ->
  (forall k', In k' (map structure_key l) -> k' <> k ->
              occurrences k' l < occurrences k l) ->
  (exists d, mostCommonStructure l = Ok d /\ structure_key d = k /\
             find (fun s => String.eqb (structure_key s) k) l = Some d) /\
  (forall l', Permutation l l' ->
              exists d', mostCommonStructure l' = Ok d' /\ structure_key d' = k).
Proof.
  intros Hin Hmajor. split; [exact (majority_key l k Hin Hmajor)|].
  intros l' Hperm.
  assert (Permutation (map structure_key l) (map structure_key l')) as Hkeys
    by (apply Permutation_map; exact Hperm).
  assert (forall x, occurrences x l' = occurrences x l) as Hocc.
  { intros x. unfold occurrences. symmetry.
    apply (Permutation_count_occ string_dec). exact Hkeys. }
  destruct (majority_key l' k) as (d' & Hd' & Hk & _).
  - apply (Permutation_in _ Hkeys). exact Hin.
  - intros k' Hin' Hne. rewrite !Hocc. apply Hmajor; [|exact Hne].
    apply (Permutation_in _ (Permutation_sym Hkeys)). exact Hin'.
  - exists d'. auto.
Qed.

Lemma located_all_some (locations : list (option descriptor)) :
  Forall (fun o => o <> None) locations ->
  exists l, located locations = Ok l /\ List.length l = List.length locations.
Proof.
  induction 1 as [|o locations Ho Hall [l [IH Hlen]]]; simpl; [exists []; auto|].
  destruct o as [d|]; [|contradiction]. rewrite IH. simpl.
  exists (d :: l). simpl. auto.
Qed.

Lemma located_some_none (locations : list (option descriptor)) :
  ~ Forall (fun o => o <> None) locations ->
  located locations = Throw (TypeError "Cannot read properties of null (reading 'type')").
Proof.
  induction locations as [|[d|] locations IH]; simpl; intros Hnot.
  - exfalso. apply Hnot. constructor.
  - rewrite IH; [reflexivity|]. intros Hall. apply Hnot.
    constructor; [discriminate | exact Hall].
  - reflexivity.
Qed.

Lemma located_ok_all (locations : list (option descriptor)) (l : list descriptor) :
  located locations = Ok l -> Forall (fun o => o <> None) locations.
Proof.
  revert l. induction locations as [|[d|] locations IH]; simpl; intros l H.
  - constructor.
  - destruct (located locations) as [tl|e]; [|discriminate H].
    constructor; [discriminate | exact (IH tl eq_refl)].
  - discriminate H.
Qed.

Section Analyzers.

Variable location : analysis -> option descriptor.

Lemma analyze_defined_iff (logs : list analysis) :
  (exists d, (structures <- located (map location logs) ;;
              mostCommonStructure structures) = Ok d) <->
  logs <> [] /\ Forall (fun e => location e <> None) logs.
Proof.
  split.
  - intros [d Hd]. split.
    + intros ->. discriminate Hd.
    + destruct (located (map location logs)) as [l|e] eqn:Hl; [|discriminate Hd].
      apply located_ok_all in Hl.
      exact (proj1 (Forall_map location (fun o => o <> None) logs) Hl).
  - intros [Hne Hall].
    destruct (located_all_some (map location logs)) as (l & Hl & Hlen).
    { exact (proj2 (Forall_map location (fun o => o <> None) logs) Hall). }
    rewrite Hl. cbn [bind]. apply mostCommonStructure_defined.
    intros ->. rewrite length_map in Hlen. destruct logs; [contradiction|].
    discriminate Hlen.
Qed.

End Analyzers.

(** X9. When the analyzers fail.  Each of the two analyzers returns a
    structure exactly when it is given at least one entry and every entry
    carries the location it reads (systemPromptLocation, respectively
    userPromptLocation); on no entry it throws the TypeError of a reduce
    over an empty array, and on an entry whose location is null the
    TypeError of reading a property of null. *)
Theorem analyzers_defined_iff (logs : list analysis) :
  ((exists d, analyzeSystemPromptPattern logs = Ok d) <->
   logs <> [] /\ Forall (fun e => systemPromptLocation e <> None) logs) /\
  ((exists d, analyzeUserPromptPattern logs = Ok d) <->
   logs <> [] /\ Forall (fun e => userPromptLocation e <> None) logs) /\
  (logs = [] ->
   analyzeSystemPromptPattern logs =
   Throw (TypeError "Reduce of empty array with no initial value") /\
   analyzeUserPromptPattern logs =
   Throw (TypeError "Reduce of empty array with no initial value")) /\
  (~ Forall (fun e => systemPromptLocation e <> None) logs ->
   analyzeSystemPromptPattern logs =
   Throw (TypeError "Cannot read properties of null (reading 'type')")) /\
  (~ Forall (fun e => userPromptLocation e <> None) logs ->
   analyzeUserPromptPattern logs =
   Throw (TypeError "Cannot read properties of null (reading 'type')")).
Proof.
  split; [exact (analyze_defined_iff systemPromptLocation logs)|].
  split; [exact (analyze_defined_iff userPromptLocation logs)|].
  split; [intros ->; split; reflexivity|].
  split; intros Hnot; unfold analyzeSystemPromptPattern, analyzeUserPromptPattern;
    rewrite located_some_none; try reflexivity;
    intros Hall; apply Hnot;
    [exact (proj1 (Forall_map systemPromptLocation (fun o => o <> None) logs) Hall)
    |exact (proj1 (Forall_map userPromptLocation (fun o => o <> None) logs) Hall)].
Qed.

(** *** The first pass on arbitrary logs *)

Lemma sample_is_firstn {A : Type} (l : list A) :
  firstn (Nat.min 3 (List.length l)) l = firstn 3 l.
Proof.
  destruct (Nat.le_gt_cases 3 (List.length l)).
  - rewrite Nat.min_l by assumption. reflexivity.
  - rewrite Nat.min_r by lia. rewrite !firstn_all2 by lia. reflexivity.
Qed.

Lemma analysisData_from_ok (sample : list value) :
  forall (index : nat) (data : list analysis),
    analysisData_from sample index = Ok data -> Forall not_nullish sample.
Proof.
  induction sample as [|log sample IH]; intros index data H; [constructor|].
  simpl in H. destruct (get_prop log "input") as [i|e] eqn:G; [|discriminate H].
  simpl in H.
  destruct (analysisData_from sample (S index)) as [tl|e] eqn:T; [|discriminate H].
  constructor; [|exact (IH (S index) tl T)].
  destruct log; try (split; discriminate); discriminate G.
Qed.

Lemma analysisData_from_nullish (sample : list value) :
  forall index : nat,
    ~ Forall not_nullish sample ->
    exists message, analysisData_from sample index = Throw (TypeError message).
Proof.
  induction sample as [|log sample IH]; intros index Hnot.
  - exfalso. apply Hnot. constructor.
  - simpl. destruct (get_prop log "input") as [i|e] eqn:G.
    + destruct (IH (S index)) as [message Hm].
      { intros Hall. apply Hnot. constructor; [|exact Hall].
        destruct log; try (split; discriminate); discriminate G. }
      simpl. rewrite Hm. simpl. eauto.
    + destruct log; try discriminate G; simpl in G; injection G as <-;
        simpl; eauto.
Qed.

Lemma first_pass_values (sample : list value) :
  forall index : nat,
    Forall not_nullish sample ->
    (data <- analysisData_from sample index ;; forEachM first_pass data) =
    Ok (verdicts (map as_record sample) index).
Proof.
  induction sample as [|log sample IH]; intros index Hall; [reflexivity|].
  inversion Hall as [|? ? Hlog Hrest]; subst.
  specialize (IH (S index) Hrest). cbn [analysisData_from map verdicts].
  rewrite (get_prop_defined log "input" Hlog). cbn [bind].
  destruct (analysisData_from sample (S index)) as [tl|e]; [|discriminate IH].
  cbn [bind forEachM] in *.
  change (peek log "input") with (lookup_prop (as_record log) "input") at 1.
  rewrite first_pass_verdict. cbn [bind]. rewrite IH. reflexivity.
Qed.

Lemma nth_error_verdicts (logs : list obj) :
  forall (index i : nat) (e : analysis),
    nth_error (verdicts logs index) i = Some e ->
    exists log, nth_error logs i = Some log /\ e = verdict (index + i) log.
Proof.
  induction logs as [|log logs IH]; intros index i e H; [destruct i; discriminate|].
  destruct i as [|i]; simpl in H.
  - injection H as <-. exists log. rewrite Nat.add_0_r. auto.
  - destruct (IH (S index) i e H) as (log' & Hn & He).
    exists log'. rewrite Nat.add_succ_r. auto.
Qed.

Lemma verdicts_length (logs : list obj) :
  forall index : nat, List.length (verdicts logs index) = List.length logs.
Proof.
  induction logs as [|log logs IH]; intros index; simpl; [|rewrite IH]; reflexivity.
Qed.

(** The first pass succeeds exactly on an array whose sampled elements
    are neither undefined nor null. *)
Lemma analyse_ok_inv (logs : value) (data : list analysis) :
  analyse logs = Ok data ->
  exists items,
    logs = VArr items /\ Forall not_nullish (firstn 3 items) /\
    data = verdicts (map as_record (firstn 3 items)) 0.
Proof.
  unfold analyse. intros H.
  destruct logs as [| | b | q | s | items | props | n m]; try discriminate H.
  exists items. cbn [sampleLogs bind] in H. rewrite sample_is_firstn in H.
  assert (Forall not_nullish (firstn 3 items)) as Hall.
  { destruct (analysisData_from (firstn 3 items) 0) as [d0|e] eqn:A;
      [|discriminate H]. exact (analysisData_from_ok _ 0 d0 A). }
  rewrite (first_pass_values _ 0 Hall) in H. injection H as <-. auto.
Qed.

(** X10. What the first pass leaves behind.  Whenever the sampling and
    first pass of the orchestrator succeed, logs is an array, there is one
    entry per sampled log (min(3, length) of them), entry i has logIndex i
    and the input of log i, its systemPromptLocation is what the system
    matcher finds in that input, its userPromptLocation what the user
    matcher finds there but only if the system matcher found nothing, and
    each flag is set exactly when its location is: no entry is flagged
    both ways. *)
Theorem first_pass_invariant (logs : value) (data : list analysis) :
  analyse logs = Ok data ->
  exists items,
    logs = VArr items /\
    List.length data = Nat.min 3 (List.length items) /\
    forall i e,
      nth_error data i = Some e ->
      logIndex e = i /\
      (exists log, nth_error items i = Some log /\
                   get_prop log "input" = Ok (input e)) /\
      systemPromptLocation e = found (findSystemPromptInData (input e)) /\
      userPromptLocation e =
        match systemPromptLocation e with
        | Some _ => None
        | None => found (findUserPromptInData (input e))
        end /\
      hasSystemPrompt e = is_some (systemPromptLocation e) /\
      hasUserPrompt e = is_some (userPromptLocation e) /\
      hasSystemPrompt e && hasUserPrompt e = false.
Proof.
  intros H. destruct (analyse_ok_inv logs data H) as (items & -> & Hall & ->).
  exists items. split; [reflexivity|]. split.
  - rewrite verdicts_length, length_map, length_firstn. reflexivity.
  - intros i e He.
    destruct (nth_error_verdicts _ 0 i e He) as (record & Hn & ->).
    rewrite nth_error_map in Hn.
    destruct (nth_error (firstn 3 items) i) as [log|] eqn:Hlog; [|discriminate Hn].
    injection Hn as <-.
    assert (not_nullish log) as Hnn.
    { rewrite Forall_forall in Hall. apply Hall. eapply nth_error_In. exact Hlog. }
    split; [reflexivity|]. split.
    + exists log. split.
      * rewrite nth_error_firstn in Hlog.
        destruct (i <? 3); [exact Hlog | discriminate Hlog].
      * exact (get_prop_defined log "input" Hnn).
    + unfold verdict, system_matched, user_matched, user_location, system_location.
      cbn [logIndex input hasSystemPrompt hasUserPrompt systemPromptLocation
           userPromptLocation].
      change (lookup_prop (as_record log) "input") with (peek log "input").
      destruct (found (findSystemPromptInData (peek log "input")));
        repeat split; reflexivity.
Qed.

Lemma analysisData_from_inputs (sample sample' : list value) :
  forall index : nat,
    map (fun log => get_prop log "input") sample =
    map (fun log => get_prop log "input") sample' ->
    analysisData_from sample index = analysisData_from sample' index.
Proof.
  revert sample'. induction sample as [|log sample IH];
    intros [|log' sample'] index H; try discriminate H; [reflexivity|].
  simpl in H. injection H as Hlog Hrest. simpl.
  rewrite Hlog, (IH sample' (S index) Hrest). reflexivity.
Qed.

(** X11. The orchestrator reads nothing of a log but its input: two logs
    arrays whose first three elements have the same inputs (whatever their
    other fields, and whatever follows) give the same result and leave the
    same world. *)
Theorem detect_reads_inputs_only
  (items items' : list value) (model : value) (w : world) :
  map (fun log => get_prop log "input") (firstn 3 items) =
  map (fun log => get_prop log "input") (firstn 3 items') ->
  detectSystemPromptStructure (VArr items) model w =
  detectSystemPromptStructure (VArr items') model w.
Proof.
  intros H. unfold detectSystemPromptStructure, detect_body, analyse.
  cbn [sampleLogs bind]. rewrite !sample_is_firstn.
  rewrite (analysisData_from_inputs _ _ 0 H). reflexivity.
Qed.

(** *** The orchestrator on every input *)

Lemma mostCommonStructure_in (l : list descriptor) (d : descriptor) :
  mostCommonStructure l = Ok d -> In d l.
Proof.
  unfold mostCommonStructure.
  destruct (mostCommonKey (structureCounts l)) as [key|e]; [|discriminate].
  cbn [bind].
  destruct (find (fun s => String.eqb (structure_key s) key) l) as [s|] eqn:F;
    [|discriminate].
  intros H. injection H as <-. apply find_some in F. destruct F as [Hin _].
  destruct s; exact Hin.
Qed.

Lemma located_in (locations : list (option descriptor)) :
  forall (l : list descriptor) (d : descriptor),
    located locations = Ok l -> In d l -> In (Some d) locations.
Proof.
  induction locations as [|[s|] locations IH]; simpl; intros l d H Hin.
  - injection H as <-. contradiction.
  - destruct (located locations) as [tl|e]; [|discriminate H].
    injection H as <-. destruct Hin as [->|Hin]; [left; reflexivity|].
    right. exact (IH tl d eq_refl Hin).
  - discriminate H.
Qed.

Lemma verdicts_flags (logs : list obj) :
  forall (index : nat) (e : analysis),
    In e (verdicts logs index) ->
    hasSystemPrompt e = is_some (systemPromptLocation e) /\
    hasUserPrompt e = is_some (userPromptLocation e).
Proof.
  induction logs as [|log logs IH]; intros index e Hin; [contradiction|].
  destruct Hin as [<-|Hin]; [split; reflexivity | exact (IH (S index) e Hin)].
Qed.

Section Consensus.

Variable flag : analysis -> bool.
Variable location : analysis -> option descriptor.

Lemma flagged_consensus (data : list analysis) :
  (forall e, In e data -> flag e = is_some (location e)) ->
  2 <= List.length (filter flag data) ->
  exists s,
    (structures <- located (map location (filter flag data)) ;;
     mostCommonStructure structures) = Ok s /\
    exists e, In e data /\ location e = Some s.
Proof.
  intros Hflag H2.
  destruct (proj2 (analyze_defined_iff location (filter flag data))) as [s Hs].
  { split; [apply nonempty_of_length; exact H2|].
    apply Forall_forall. intros e He. apply filter_In in He.
    destruct He as [Hin Hf]. rewrite (Hflag e Hin) in Hf.
    destruct (location e); [discriminate | discriminate Hf]. }
  exists s. split; [exact Hs|].
  destruct (located (map location (filter flag data))) as [l|err] eqn:L;
    [|discriminate Hs].
  cbn [bind] in Hs. apply mostCommonStructure_in in Hs.
  pose proof (located_in _ l s L Hs) as Hin. apply in_map_iff in Hin.
  destruct Hin as (e & He & Hin). apply filter_In in Hin.
  exists e. split; [exact (proj1 Hin) | exact He].
Qed.

End Consensus.

(** The three ways out of the [try] block once the first pass is done. *)
Lemma detect_body_cases (logs : value) (w : world) (data : list analysis) :
  analyse logs = Ok data ->
  (2 <= List.length (filter hasSystemPrompt data) /\
   exists s e, In e data /\ systemPromptLocation e = Some s /\
     detect_body logs w =
     (Ok (Built (system_consensus (filter hasSystemPrompt data) s)), w)) \/
  (List.length (filter hasSystemPrompt data) < 2 /\
   2 <= List.length (filter hasUserPrompt data) /\
   exists s e, In e data /\ userPromptLocation e = Some s /\
     detect_body logs w =
     (Ok (Built (user_consensus (filter hasUserPrompt data) s)), w)) \/
  (List.length (filter hasSystemPrompt data) < 2 /\
   List.length (filter hasUserPrompt data) < 2 /\
   detect_body logs w = ask data w).
Proof.
  intros A. unfold detect_body. rewrite A.
  destruct (analyse_ok_inv logs data A) as (items & _ & _ & Hdata).
  assert (forall e, In e data ->
                    hasSystemPrompt e = is_some (systemPromptLocation e) /\
                    hasUserPrompt e = is_some (userPromptLocation e)) as Hflags.
  { rewrite Hdata. intros e. apply verdicts_flags. }
  destruct (Nat.leb_spec 2 (List.length (filter hasSystemPrompt data))) as [Hs|Hs].
  - left. split; [exact Hs|].
    destruct (flagged_consensus hasSystemPrompt systemPromptLocation data)
      as (s & Hok & e & Hin & Hloc); [intros e He; apply Hflags, He | exact Hs |].
    exists s, e. unfold analyzeSystemPromptPattern. rewrite Hok. auto.
  - right.
    destruct (Nat.leb_spec 2 (List.length (filter hasUserPrompt data))) as [Hu|Hu].
    + left. split; [exact Hs|]. split; [exact Hu|].
      destruct (flagged_consensus hasUserPrompt userPromptLocation data)
        as (s & Hok & e & Hin & Hloc); [intros e He; apply Hflags, He | exact Hu |].
      exists s, e. unfold analyzeUserPromptPattern. rewrite Hok. auto.
    + right. auto.
Qed.

Lemma ask_never_built (data : list analysis) (w w' : world) (d : detection) :
  ask data w <> (Ok (Built d), w').
Proof.
  unfold ask. destruct (generateAIResponse _ _) as [response ext'].
  destruct response as [r|e]; cbn [bind]; [|discriminate].
  destruct (get_prop r "text") as [text|e]; cbn [bind]; [|discriminate].
  destruct (parse (ToString text)); cbn [bind]; discriminate.
Qed.

Lemma detection_failure_shape (error : value) (d : detection) :
  detection_failure error = Ok (Built d) ->
  confidence d = 0%Q /\ promptType d = None /\ structure d = None.
Proof.
  unfold detection_failure. destruct (get_prop error "message"); cbn [bind];
    [|discriminate].
  destruct (to_text _); cbn [bind]; [|discriminate].
  intros H. injection H as <-. auto.
Qed.

(** X12. The shapes of a result built by the orchestrator itself.  On
    every input, a resolved result that is not the collaborator's parsed
    answer is one of three records: confidence 0.9 with promptType
    "system", confidence 0.8 with promptType "user", or confidence 0 with
    promptType null and structure null.  In the first two the world is
    left as it was and the structure is the location the first pass
    recorded for one of the sampled logs (system location, respectively
    user location). *)
Theorem detect_result_shapes
  (logs model : value) (w w' : world) (d : detection) :
  detectSystemPromptStructure logs model w = (Ok (Built d), w') ->
  (confidence d = 0.9%Q /\ promptType d = Some system /\ w' = w /\
   exists data e s, analyse logs = Ok data /\ In e data /\
                    systemPromptLocation e = Some s /\ structure d = Some s) \/
  (confidence d = 0.8%Q /\ promptType d = Some user /\ w' = w /\
   exists data e s, analyse logs = Ok data /\ In e data /\
                    userPromptLocation e = Some s /\ structure d = Some s) \/
  (confidence d = 0%Q /\ promptType d = None /\ structure d = None).
Proof.
  unfold detectSystemPromptStructure. intros H.
  destruct (analyse logs) as [data|err] eqn:A.
  - destruct (detect_body_cases logs w data A)
      as [(_ & s & e & Hin & Hloc & B) | [(_ & _ & s & e & Hin & Hloc & B)
                                         | (_ & _ & B)]];
      rewrite B in H.
    + injection H as <- <-. left. repeat split; try reflexivity.
      exists data, e, s. auto.
    + injection H as <- <-. right. left. repeat split; try reflexivity.
      exists data, e, s. auto.
    + right. right.
      destruct (ask data w) as [[r|error] w1] eqn:K.
      * injection H as -> <-. exfalso. exact (ask_never_built data w w1 d K).
      * injection H as H _. exact (detection_failure_shape error d H).
  - right. right. unfold detect_body in H. rewrite A in H.
    injection H as H _. exact (detection_failure_shape err d H).
Qed.

(** X13. The collaborator is called at most once, and only as a last
    resort.  On every input, either no request is made and the outside
    world is left as it was, or the first pass succeeded with fewer than 2
    system-flagged and fewer than 2 user-flagged entries and exactly one
    request, built from those entries, is appended. *)
Theorem detect_calls_at_most_once (logs model : value) (w : world) :
  let after := snd (detectSystemPromptStructure logs model w) in
  (requests after = requests w /\ ext after = ext w) \/
  (exists data,
      analyse logs = Ok data /\
      List.length (filter hasSystemPrompt data) < 2 /\
      List.length (filter hasUserPrompt data) < 2 /\
      requests after = (requests w ++ [analysis_request data])%list /\
      ext after = snd (generateAIResponse (analysis_request data) (ext w))).
Proof.
  assert (requests (snd (detectSystemPromptStructure logs model w)) =
          requests (snd (detect_body logs w)) /\
          ext (snd (detectSystemPromptStructure logs model w)) =
          ext (snd (detect_body logs w))) as [Hr He].
  { unfold detectSystemPromptStructure.
    destruct (detect_body logs w) as [[r|error] w1]; split; reflexivity. }
  cbv zeta. rewrite Hr, He.
  destruct (analyse logs) as [data|err] eqn:A.
  - destruct (detect_body_cases logs w data A)
      as [(_ & s & e & _ & _ & B) | [(_ & _ & s & e & _ & _ & B)
                                    | (Hs & Hu & B)]];
      rewrite B.
    + left. split; reflexivity.
    + left. split; reflexivity.
    + right. exists data. unfold ask.
      destruct (generateAIResponse (analysis_request data) (ext w))
        as [response ext'].
      repeat split; auto.
  - left. unfold detect_body. rewrite A. split; reflexivity.
Qed.

Lemma analyse_malformed (logs : value) :
  malformed logs -> exists message, analyse logs = Throw (TypeError message).
Proof.
  intros [Hno | (items & log & -> & Hin & Hnull)]; unfold analyse.
  - destruct logs as [| | b | q | s | items | props | n m]; simpl; eauto.
    exfalso. exact (Hno items eq_refl).
  - cbn [sampleLogs bind]. rewrite sample_is_firstn.
    destruct (analysisData_from_nullish (firstn 3 items) 0) as [message Hm].
    { intros Hall. rewrite Forall_forall in Hall. exact (Hnull (Hall log Hin)). }
    rewrite Hm. simpl. eauto.
Qed.

(** X14. Malformed logs end in the zero-confidence record, without any
    request.  When logs is not an array, or one of its first three
    elements is undefined or null, the promise still resolves: the result
    is {structure: null, confidence: 0, reasoning: "Error during
    detection: " followed by the TypeError's message, promptType: null},
    the error is logged once on the console, and the collaborator is not
    called. *)
Theorem detect_on_malformed_logs (logs model : value) (w : world) :
  malformed logs ->
  exists message,
    detectSystemPromptStructure logs model w =
    (Ok (Built (zero_confidence message)),
     {| ext := ext w;
        requests := requests w;
        console := (console w ++ [("Error detecting system prompt structure:",
                                   TypeError message)])%list |}).
Proof.
  intros Hbad. destruct (analyse_malformed logs Hbad) as [message A].
  exists message. unfold detectSystemPromptStructure, detect_body.
  rewrite A. reflexivity.
Qed.


(** The two ways the [catch] clause itself throws: reading [message] of
    [undefined] or [null], and splicing a [message] that has no string
    conversion. *)
Lemma detection_failure_throws (error e : value) :
  detection_failure error = Throw e ->
  (error = VUndefined /\
   e = TypeError "Cannot read properties of undefined (reading 'message')") \/
  (error = VNull /\
   e = TypeError "Cannot read properties of null (reading 'message')") \/
  (not_nullish error /\ convertible (peek error "message") = false /\
   e = TypeError "Cannot convert object to primitive value").
Proof.
  unfold detection_failure, to_text. intros H.
  destruct error; try (injection H as <-; auto).
  all: right; right; split; [split; discriminate|].
  all: rewrite (get_prop_defined _ "message") in H by (split; discriminate).
  all: cbn [bind] in H.
  all: destruct (convertible _); cbn [bind] in H; [discriminate H|].
  all: injection H as <-; split; reflexivity.
Qed.

Lemma detection_failure_legible (error : value) :
  legible error -> exists r, detection_failure error = Ok r.
Proof.
  intros [Hread Hshown]. unfold detection_failure, to_text.
  rewrite (get_prop_defined error "message" Hread). cbn [bind].
  rewrite Hshown. cbn [bind]. eauto.
Qed.

(** What the fallback throws is the collaborator's reason, or legible. *)
Lemma ask_throws_reason (data : list analysis) (w w' : world) (error : value) :
  ask data w = (Throw error, w') ->
  fst (generateAIResponse (analysis_request data) (ext w)) = Throw error \/
  legible error.
Proof.
  unfold ask. destruct (generateAIResponse _ _) as [response ext'].
  intros H. injection H as H _. simpl.
  destruct response as [r|reason]; cbn [bind] in H;
    [|injection H as <-; left; reflexivity].
  right.
  destruct (get_prop r "text") as [text|e0] eqn:G; cbn [bind] in H.
  - unfold parse in H. destruct (JSON_parse (ToString text)); cbn [bind] in H;
      [discriminate H|]. injection H as <-. apply error_readable.
  - injection H as <-. exact (get_prop_throws r "text" e0 G).
Qed.

(** X17. When the returned promise rejects.  On every input, with thrown
    values that are data or Errors, if detectSystemPromptStructure rejects
    then the first pass had succeeded without local consensus, the
    collaborator was called and its promise rejected with a reason the
    [catch] clause cannot report, and the caller sees the TypeError of the
    [catch] clause itself: the one of reading [message] of undefined, the
    one of reading [message] of null, or, for a reason whose [message] has
    no string conversion (as {message: {toString: 1}}), the one of that
    conversion.  Malformed logs, an Error thrown by the collaborator, a
    response without text and an unparseable text never make it reject. *)
Theorem detect_rejection_cause (logs model : value) (w : world) (e : value) :
  fst (detectSystemPromptStructure logs model w) = Throw e ->
  exists data reason,
    analyse logs = Ok data /\
    List.length (filter hasSystemPrompt data) < 2 /\
    List.length (filter hasUserPrompt data) < 2 /\
    fst (generateAIResponse (analysis_request data) (ext w)) = Throw reason /\
    ((reason = VUndefined /\
      e = TypeError "Cannot read properties of undefined (reading 'message')") \/
     (reason = VNull /\
      e = TypeError "Cannot read properties of null (reading 'message')") \/
     (not_nullish reason /\ convertible (peek reason "message") = false /\
      e = TypeError "Cannot convert object to primitive value")).
Proof.
  unfold detectSystemPromptStructure. intros H.
  assert (forall error, detection_failure error = Throw e -> ~ legible error)
    as Hdark.
  { intros error Hthrow Hleg.
    destruct (detection_failure_legible error Hleg) as [r Hr].
    rewrite Hr in Hthrow. discriminate Hthrow. }
  destruct (analyse logs) as [data|err] eqn:A.
  - destruct (detect_body_cases logs w data A)
      as [(_ & s & x & _ & _ & B) | [(_ & _ & s & x & _ & _ & B)
                                    | (Hs & Hu & B)]];
      rewrite B in H; try discriminate H.
    destruct (ask data w) as [[r|error] w1] eqn:K; [discriminate H|].
    simpl in H. exists data, error.
    destruct (ask_throws_reason data w w1 error K) as [Hreason|Hleg];
      [|exfalso; exact (Hdark error H Hleg)].
    repeat split; auto.
    exact (detection_failure_throws error e H).
  - exfalso. unfold detect_body in H. rewrite A in H. simpl in H.
    exact (Hdark err H (analyse_throws logs err A)).
Qed.

(** *** Persistence composes *)

Lemma set_prop_twice (o : obj) (key : string) (v1 v2 : value) :
  set_prop (set_prop o key v1) key v2 = set_prop o key v2.
Proof.
  induction o as [|[k old] o IH]; simpl.
  - rewrite String.eqb_refl. reflexivity.
  - destruct (String.eqb k key) eqn:E; simpl; rewrite E; [reflexivity|].
    rewrite IH. reflexivity.
Qed.

Lemma set_prop_keys (o : obj) (key : string) (v : value) :
  (In key (map fst o) -> map fst (set_prop o key v) = map fst o) /\
  (~ In key (map fst o) -> map fst (set_prop o key v) = (map fst o ++ [key])%list).
Proof.
  induction o as [|[k old] o [IHin IHout]]; simpl.
  - split; [contradiction | reflexivity].
  - destruct (String.eqb_spec k key) as [->|Hne]; simpl; split.
    + reflexivity.
    + intros Hnot. exfalso. apply Hnot. left. reflexivity.
    + intros [E|Hin]; [contradiction|]. rewrite (IHin Hin). reflexivity.
    + intros Hnot. rewrite IHout; [reflexivity|].
      intros Hin. apply Hnot. right. exact Hin.
Qed.

Lemma model_after_update (model : obj) (structure : value) (st : Store) :
  model_after (updateModelSystemPromptStructure model structure st) =
  set_prop model "systemPromptStructure" structure.
Proof.
  unfold updateModelSystemPromptStructure.
  destruct (save _ st) as [[u|e] st']; reflexivity.
Qed.

(** X16. Updates compose by last write wins, whether or not the saves
    succeed: updating a model with one structure and then with another
    leaves the in-memory model exactly as a single update with the second
    structure would; an update keeps the model's keys in place, adding
    systemPromptStructure at the end only when the model did not have
    it. *)
Theorem update_last_write_wins
  (model : obj) (first second : value) (st st' st'' : Store) :
  model_after
    (updateModelSystemPromptStructure
       (model_after (updateModelSystemPromptStructure model first st))
       second st') =
  model_after (updateModelSystemPromptStructure model second st'') /\
  (In "systemPromptStructure" (map fst model) ->
   map fst (model_after (updateModelSystemPromptStructure model first st)) =
   map fst model) /\
  (~ In "systemPromptStructure" (map fst model) ->
   map fst (model_after (updateModelSystemPromptStructure model first st)) =
   (map fst model ++ ["systemPromptStructure"])%list).
Proof.
  rewrite !model_after_update, set_prop_twice.
  split; [reflexivity|]. apply set_prop_keys.
Qed.

End Service.

(** ** Path resolution over any engine *)

Section Resolution.

Set Default Proof Using "Type".

Context {V : Type} {E : Engine V}.

Lemma nested_step_on_throw (current : V) (key : string) (e : value) :
  nested_step_on current key = Throw e ->
  truthyV current = true /\ readV current key = Throw e.
Proof.
  unfold nested_step_on. destruct (truthyV current); [|discriminate].
  destruct (readV current key) as [v|e'] eqn:R; cbn [bind].
  - destruct (negb (is_undefinedV v)); discriminate.
  - intros H. injection H as <-. auto.
Qed.

Lemma reduceM_on_throw (keys : list string) :
  forall (o : V) (e : value),
    reduceM nested_step_on keys o = Throw e ->
    exists current key, truthyV current = true /\ readV current key = Throw e.
Proof.
  induction keys as [|k keys IH]; intros o e H; [discriminate H|].
  simpl in H. destruct (nested_step_on o k) as [next|e'] eqn:S; cbn [bind] in H.
  - exact (IH next e H).
  - injection H as <-. exists o, k. exact (nested_step_on_throw o k e' S).
Qed.

Lemma reduceM_on_undefined (keys : list string) :
  reduceM nested_step_on keys undefinedV = Ok undefinedV.
Proof.
  induction keys as [|k keys IH]; [reflexivity|].
  simpl. unfold nested_step_on at 1. rewrite undefined_is_falsy. exact IH.
Qed.

Lemma nested_step_on_absent (current : V) (key : string) :
  truthyV current = false \/
  (exists v, readV current key = Ok v /\ is_undefinedV v = true) ->
  nested_step_on current key = Ok undefinedV.
Proof.
  unfold nested_step_on. intros [F | (v & R & U)].
  - rewrite F. reflexivity.
  - destruct (truthyV current); [|reflexivity].
    rewrite R. cbn [bind]. rewrite U. reflexivity.
Qed.

End Resolution.

(** C7 (amended). Path resolution of a dot-separated path against any
    value, whatever the property read of the engine finds (own properties,
    inherited members, accessors): keys are resolved left to right; a
    property is read only from a truthy value, so resolution throws only
    what such a read throws and is total when these reads complete; it
    yields undefined as soon as the value reached is falsy or the next key
    is absent or maps to undefined.  [getNestedValue] is this resolver with
    keys read as own properties of the data, which is the read of the engine
    on the paths of the two pattern tables: on these it never throws,
    whatever the data.  "a.b.c" resolves to "x" in {a: {b: {c: "x"}}} and to
    undefined in {a: {b: {}}}. *)
Theorem getNestedValue_guarded :
  (forall (V : Type) (E : Engine V),
      (forall (o : V) (key rest : string),
          dotless key = true ->
          getNestedValue_on o (key ++ "." ++ rest) =
          (current <- nested_step_on o key ;; getNestedValue_on current rest)) /\
      (forall (o : V) (p : string) (e : value),
          getNestedValue_on o p = Throw e ->
          exists current key,
            truthyV current = true /\ readV current key = Throw e) /\
      ((forall current key, truthyV current = true ->
                            exists v, readV current key = Ok v) ->
       forall (o : V) (p : string), exists v, getNestedValue_on o p = Ok v) /\
      (forall (o found : V) (p key : string) (before after : list string),
          split "." p = (before ++ key :: after)%list ->
          reduceM nested_step_on before o = Ok found ->
          truthyV found = false \/
          (exists v, readV found key = Ok v /\ is_undefinedV v = true) ->
          getNestedValue_on o p = Ok undefinedV)) /\
  (forall (o : value) (p : string),
      getNestedValue o p = getNestedValue_on (E := own_properties) o p) /\
  (forall (o : value) (q : pattern),
      In q (systemPatterns ++ userPatterns)%list ->
      exists v, getNestedValue o (pat_path q) = Ok v) /\
  getNestedValue
    (VObj [("a", VObj [("b", VObj [("c", VStr "x")])])]) "a.b.c" = Ok (VStr "x") /\
  getNestedValue (VObj [("a", VObj [("b", VObj [])])]) "a.b.c" = Ok VUndefined.
Proof.
  split; [|split; [|split; [|split; reflexivity]]].
  - intros V E. split; [|split; [|split]].
    + intros o key rest D. unfold getNestedValue_on.
      rewrite (split_dotless_prefix _ _ D). reflexivity.
    + intros o p e. apply reduceM_on_throw.
    + intros Hreads o p.
      destruct (getNestedValue_on o p) as [v|e] eqn:R; [eauto|].
      destruct (reduceM_on_throw _ o e R) as (current & key & T & Hthrow).
      destruct (Hreads current key T) as [v Hv]. rewrite Hv in Hthrow.
      discriminate Hthrow.
    + intros o found p key before after Hs Hb Hk. unfold getNestedValue_on.
      rewrite Hs, reduceM_app, Hb. cbn [bind reduceM].
      rewrite (nested_step_on_absent found key Hk). cbn [bind].
      apply reduceM_on_undefined.
  - reflexivity.
  - intros o q _. rewrite getNestedValue_walk. eauto.
Qed.

(** ** Concrete checks *)

(** C1, as stated, fails.  Two descriptors of different groups tie with one
    occurrence each; the first maximal key in first-seen order is the one of
    the first descriptor, and the analyzer returns the second descriptor. *)
Lemma mostCommonStructure_not_first_maximal :
  occurrences (structure_key d_array0) [d_array0; d_prompt] = 1 /\
  occurrences (structure_key d_prompt) [d_array0; d_prompt] = 1 /\
  spec_first_maximal_key [d_array0; d_prompt] = Some (structure_key d_array0) /\
  mostCommonStructure [d_array0; d_prompt] = Ok d_prompt /\
  structure_key d_prompt <> structure_key d_array0.
Proof.
  split; [reflexivity|]. split; [reflexivity|]. split; [reflexivity|].
  split; [reflexivity|]. intros H. vm_compute in H. discriminate H.
Qed.

Lemma mostCommonStructure_last_maximal_witness :
  [d_array0; d_prompt] <> [] /\
  exists d,
    mostCommonStructure [d_array0; d_prompt] = Ok d /\
    find (fun s => String.eqb (structure_key s) (structure_key d))
         [d_array0; d_prompt] = Some d /\
    (forall a b, structure_key a = structure_key b <->
                 type a = type b /\ path a = path b) /\
    (forall d', In d' [d_array0; d_prompt] ->
                occurrences (structure_key d') [d_array0; d_prompt] <=
                occurrences (structure_key d) [d_array0; d_prompt]) /\
    (forall d', In d' [d_array0; d_prompt] ->
                occurrences (structure_key d') [d_array0; d_prompt] =
                occurrences (structure_key d) [d_array0; d_prompt] ->
                first_seen (structure_key d') [d_array0; d_prompt] <=
                first_seen (structure_key d) [d_array0; d_prompt]).
Proof.
  split; [discriminate|].
  apply (mostCommonStructure_last_maximal [d_array0; d_prompt]). discriminate.
Defined.

Lemma findSystemPromptInData_array_witness :
  findSystemPromptInData
    (VArr [ VObj [("role", VStr "user"); ("content", VStr "Hi")];
            VObj [("role", VStr "system"); ("content", VStr "Be brief.")] ]) =
  Ok (Some {| path := "[1].content";
              type := array;
              field := "content";
              arrayIndex := Some 1;
              parentField := Some "role" |}).
Proof.
  apply (findSystemPromptInData_array
           [ VObj [("role", VStr "user"); ("content", VStr "Hi")];
             VObj [("role", VStr "system"); ("content", VStr "Be brief.")] ]
           1 (VObj [("role", VStr "system"); ("content", VStr "Be brief.")])).
  - reflexivity.
  - exists [("role", VStr "system"); ("content", VStr "Be brief.")].
    repeat split; reflexivity.
  - intros j earlier Hj He. destruct j as [|j]; [|lia].
    simpl in He. injection He as <-. intros (props & Hp & Hr & _).
    injection Hp as <-. simpl in Hr. discriminate Hr.
Defined.

Lemma findSystemPromptInData_nested_witness :
  findSystemPromptInData
    (VObj [("systemMessage", VStr "short");
           ("prompt", VStr "You are a helpful assistant.")]) =
  Ok (Some {| path := "prompt";
              type := nested;
              field := "prompt";
              arrayIndex := None;
              parentField := None |}).
Proof.
  destruct findSystemPromptInData_nested as [_ H].
  destruct (H (VObj [("systemMessage", VStr "short");
                     ("prompt", VStr "You are a helpful assistant.")]))
    as [Hfirst _].
  - reflexivity.
  - reflexivity.
  - intros items item Hd. discriminate Hd.
  - apply (Hfirst
             [ mkPattern "input.options.systemMessage" "systemMessage" (Some "options");
               mkPattern "systemMessage" "systemMessage" None;
               mkPattern "systemPrompt" "systemMessage" None;
               mkPattern "options.systemMessage" "systemMessage" (Some "options") ]
             (mkPattern "prompt" "prompt" None)
             [ mkPattern "system" "system" None ]).
    + reflexivity.
    + intros q Hin (s & Hs & Hlen). simpl in Hin.
      destruct Hin as [<-|[<-|[<-|[<-|[]]]]]; vm_compute in Hs;
        try discriminate Hs.
      injection Hs as <-. vm_compute in Hlen. lia.
    + exists "You are a helpful assistant.". split; [reflexivity|].
      vm_compute. lia.
Defined.

(** C7, as stated, fails.  Against the empty object the path
    "constructor.caller" reaches the inherited [constructor], the function
    [Object], which is truthy, and then reads its [caller]: the accessor
    throws, and so does the resolution. *)
Lemma getNestedValue_throws_on_accessor :
  getNestedValue_on (E := builtin_fragment) (Data (VObj [])) "constructor.caller" =
  Throw (TypeError "'caller', 'callee', and 'arguments' properties may not be accessed on strict mode functions or the arguments objects for calls to them").
Proof. reflexivity. Qed.

(** An inherited member is a value like any other to the resolver:
    "a.constructor.name" resolves to "Object" in {a: {}}, where own
    properties alone give undefined. *)
Lemma getNestedValue_reaches_inherited :
  getNestedValue_on (E := builtin_fragment)
    (Data (VObj [("a", VObj [])])) "a.constructor.name" = Ok (Data (VStr "Object")) /\
  getNestedValue (VObj [("a", VObj [])]) "a.constructor.name" = Ok VUndefined.
Proof. split; reflexivity. Qed.

Lemma getNestedValue_guarded_witness :
  (exists v,
      getNestedValue_on (E := own_properties)
        (VObj [("a", VObj [("b", VObj [])])]) "a.b.c" = Ok v) /\
  getNestedValue_on (E := builtin_fragment)
    (Data (VObj [("a", VNull)])) "a.b.c" = Ok (Data VUndefined).
Proof.
  destruct getNestedValue_guarded as [Hany _]. split.
  - destruct (Hany value own_properties) as (_ & _ & Htotal & _).
    apply Htotal. intros current key T. exists (peek current key).
    exact (get_prop_truthy current key T).
  - destruct (Hany host_value builtin_fragment) as (_ & _ & _ & Habsent).
    apply (Habsent (Data (VObj [("a", VNull)])) (Data VNull) "a.b.c" "b" ["a"] ["c"]).
    + reflexivity.
    + reflexivity.
    + left. reflexivity.
Defined.

Lemma detect_local_consensus_witness :
  detectSystemPromptStructure unit (answering "null") parse_null_only
    stringify_stub number_stub
    (VArr (map VObj [ chat_record "system" "Be brief."; [];
                      chat_record "system" "Be kind."; both_record ]))
    VNull (mkWorld unit tt [] []) =
  (Ok (Built {| structure := Some d_array0;
                confidence := 0.9;
                reasoning := "Detected consistent system prompt structure across 2 logs";
                promptType := Some system |}),
   mkWorld unit tt [] []) /\
  detectSystemPromptStructure unit (answering "null") parse_null_only
    stringify_stub number_stub
    (VArr (map VObj [ field_record "query" "what is the weather";
                      chat_record "system" "Be brief.";
                      field_record "query" "how are you doing" ]))
    VNull (mkWorld unit tt [] []) =
  (Ok (Built {| structure :=
                  Some {| path := "query";
                          type := nested;
                          field := "query";
                          arrayIndex := None;
                          parentField := None |};
                confidence := 0.8;
                reasoning := "Detected consistent user prompt structure across 2 logs (no system prompt found)";
                promptType := Some user |}),
   mkWorld unit tt [] []).
Proof.
  split.
  - destruct (detect_local_consensus unit (answering "null") parse_null_only
                stringify_stub number_stub
                [ chat_record "system" "Be brief."; [];
                  chat_record "system" "Be kind."; both_record ]
                VNull (mkWorld unit tt [] [])) as (_ & H & _).
    destruct H as (d & Hd & Hrun); [vm_compute; lia|].
    vm_compute in Hd. injection Hd as <-. rewrite Hrun. reflexivity.
  - destruct (detect_local_consensus unit (answering "null") parse_null_only
                stringify_stub number_stub
                [ field_record "query" "what is the weather";
                  chat_record "system" "Be brief.";
                  field_record "query" "how are you doing" ]
                VNull (mkWorld unit tt [] [])) as (_ & _ & H).
    destruct H as (d & Hd & Hrun); [vm_compute; lia | vm_compute; lia |].
    vm_compute in Hd. injection Hd as <-. rewrite Hrun. reflexivity.
Defined.

(** The user matcher is not run on a log the system matcher accepted: such
    a log counts as a system match only, whatever user prompt its input
    holds. *)
Lemma user_matching_skipped_after_system_match :
  found (findUserPromptInData (lookup_prop both_record "input")) =
  Some {| path := "content";
          type := nested;
          field := "content";
          arrayIndex := None;
          parentField := None |} /\
  system_matched both_record = true /\
  user_matched both_record = false.
Proof. repeat split; reflexivity. Qed.


(** C3 fails at a rejection without a readable reason.  With no local
    consensus the collaborator is called; its promise rejects with
    [undefined] (or [null]); the [catch] clause reads [error.message] and
    that read throws a TypeError, with which the returned promise rejects. *)
Theorem detect_rejects_on_nullish_reason :
  fst (detectSystemPromptStructure unit (rejecting VUndefined) parse_null_only
         stringify_stub number_stub (VArr []) VNull (mkWorld unit tt [] [])) =
  Throw (TypeError "Cannot read properties of undefined (reading 'message')") /\
  fst (detectSystemPromptStructure unit (rejecting VNull) parse_null_only
         stringify_stub number_stub (VArr []) VNull (mkWorld unit tt [] [])) =
  Throw (TypeError "Cannot read properties of null (reading 'message')").
Proof. split; reflexivity. Qed.

(** The same call with an [Error] as the reason resolves with the
    zero-confidence record. *)
Lemma detect_absorbs_error_reason :
  fst (detectSystemPromptStructure unit (rejecting (VError "Error" "quota exceeded"))
         parse_null_only stringify_stub number_stub (VArr []) VNull
         (mkWorld unit tt [] [])) =
  Ok (Built {| structure := None;
               confidence := 0;
               reasoning := "Error during detection: quota exceeded";
               promptType := None |}).
Proof. reflexivity. Qed.

Lemma update_not_rolled_back_witness :
  settled (list obj)
    (updateModelSystemPromptStructure (list obj)
       (save_failing (VError "SequelizeDatabaseError" "connection lost"))
       [("id", VNum 7); ("systemPromptStructure", VNull)]
       (VObj [("path", VStr "prompt")]) []) =
  Throw (VError "SequelizeDatabaseError" "connection lost") /\
  lookup_prop
    (model_after (list obj)
       (updateModelSystemPromptStructure (list obj)
          (save_failing (VError "SequelizeDatabaseError" "connection lost"))
          [("id", VNum 7); ("systemPromptStructure", VNull)]
          (VObj [("path", VStr "prompt")]) []))
    "systemPromptStructure" = VObj [("path", VStr "prompt")].
Proof.
  apply (update_not_rolled_back (list obj)
           (save_failing (VError "SequelizeDatabaseError" "connection lost"))
           [("id", VNum 7); ("systemPromptStructure", VNull)]
           (VObj [("path", VStr "prompt")])
           (VError "SequelizeDatabaseError" "connection lost") []).
  reflexivity.
Defined.

Lemma update_sets_saves_returns_witness :
  settled (list obj)
    (updateModelSystemPromptStructure (list obj) save_ok
       [("id", VNum 7); ("systemPromptStructure", VNull)]
       (VObj [("path", VStr "prompt")]) []) =
  Ok [("id", VNum 7); ("systemPromptStructure", VObj [("path", VStr "prompt")])] /\
  store_after (list obj)
    (updateModelSystemPromptStructure (list obj) save_ok
       [("id", VNum 7); ("systemPromptStructure", VNull)]
       (VObj [("path", VStr "prompt")]) []) =
  [[("id", VNum 7); ("systemPromptStructure", VObj [("path", VStr "prompt")])]].
Proof.
  destruct (update_sets_saves_returns (list obj) save_ok
              [("id", VNum 7); ("systemPromptStructure", VNull)]
              (VObj [("path", VStr "prompt")]) [])
    as (_ & _ & _ & Hstore & Hok & _).
  split; [apply Hok; reflexivity | exact Hstore].
Defined.

(** ** Concrete checks of the further facts *)

Lemma findUserPromptInData_array_witness :
  findUserPromptInData
    (VArr [ VObj [("role", VStr "system"); ("content", VStr "Be brief.")];
            VObj [("role", VStr "user"); ("content", VStr "Hi")] ]) =
  Ok (Some {| path := "[1].content";
              type := array;
              field := "content";
              arrayIndex := Some 1;
              parentField := Some "role" |}).
Proof.
  apply (findUserPromptInData_array
           [ VObj [("role", VStr "system"); ("content", VStr "Be brief.")];
             VObj [("role", VStr "user"); ("content", VStr "Hi")] ]
           1 (VObj [("role", VStr "user"); ("content", VStr "Hi")])).
  - reflexivity.
  - exists [("role", VStr "user"); ("content", VStr "Hi")].
    repeat split; reflexivity.
  - intros j earlier Hj He. destruct j as [|j]; [|lia].
    simpl in He. injection He as <-. intros (props & Hp & Hr & _).
    injection Hp as <-. simpl in Hr. discriminate Hr.
Defined.

Lemma findUserPromptInData_nested_witness :
  findUserPromptInData
    (VObj [("content", VStr "too short");
           ("query", VStr "what is the weather")]) =
  Ok (Some {| path := "query";
              type := nested;
              field := "query";
              arrayIndex := None;
              parentField := None |}).
Proof.
  destruct findUserPromptInData_nested as [_ H].
  destruct (H (VObj [("content", VStr "too short");
                     ("query", VStr "what is the weather")]))
    as [Hfirst _].
  - reflexivity.
  - reflexivity.
  - intros items item Hd. discriminate Hd.
  - apply (Hfirst
             [ mkPattern "input.content" "content" (Some "input");
               mkPattern "content" "content" None;
               mkPattern "userMessage" "userMessage" None ]
             (mkPattern "query" "query" None)
             [ mkPattern "text" "text" None;
               mkPattern "message" "message" None;
               mkPattern "input.query" "query" (Some "input");
               mkPattern "input.text" "text" (Some "input") ]).
    + reflexivity.
    + intros q Hin (s & Hs & Hlen). simpl in Hin.
      destruct Hin as [<-|[<-|[<-|[]]]]; vm_compute in Hs;
        try discriminate Hs.
      injection Hs as <-. vm_compute in Hlen. lia.
    + exists "what is the weather". split; [reflexivity|].
      vm_compute. lia.
Defined.

Lemma matchers_reject_non_objects_witness :
  findSystemPromptInData (VStr "You are a helpful assistant.") = Ok None /\
  findUserPromptInData (VStr "You are a helpful assistant.") = Ok None.
Proof.
  apply (matchers_reject_non_objects (VStr "You are a helpful assistant.")).
  right. intros H. vm_compute in H. discriminate H.
Defined.

Lemma descriptor_path_read_back_witness :
  (exists s,
      getNestedValue (VObj [("prompt", VStr "You are a helpful assistant.")])
                     "prompt" = Ok (VStr s) /\ 10 < String.length s) /\
  getNestedValue
    (VArr [VObj [("role", VStr "system"); ("content", VStr "Be brief.")]])
    "[0].content" = Ok VUndefined.
Proof.
  split.
  - apply (descriptor_path_read_back
             (VObj [("prompt", VStr "You are a helpful assistant.")]) d_prompt);
      [left|]; reflexivity.
  - apply (descriptor_path_read_back
             (VArr [VObj [("role", VStr "system"); ("content", VStr "Be brief.")]])
             d_array0); [left|]; reflexivity.
Defined.

Lemma strict_majority_wins_witness :
  (exists d,
      mostCommonStructure [d_prompt; d_array0; d_prompt] = Ok d /\
      structure_key d = "nested:prompt" /\
      find (fun s => String.eqb (structure_key s) "nested:prompt")
           [d_prompt; d_array0; d_prompt] = Some d) /\
  (forall l', Permutation [d_prompt; d_array0; d_prompt] l' ->
              exists d', mostCommonStructure l' = Ok d' /\
                         structure_key d' = "nested:prompt").
Proof.
  apply (strict_majority_wins [d_prompt; d_array0; d_prompt] "nested:prompt").
  - left. reflexivity.
  - intros k' Hin Hne. simpl in Hin.
    destruct Hin as [<-|[<-|[<-|[]]]]; try (exfalso; apply Hne; reflexivity).
    vm_compute. lia.
Defined.

Lemma first_pass_invariant_witness :
  exists items,
    VArr (map VObj [chat_record "system" "Be brief."; both_record]) = VArr items /\
    List.length (verdicts [chat_record "system" "Be brief."; both_record] 0) =
    Nat.min 3 (List.length items) /\
    forall i e,
      nth_error (verdicts [chat_record "system" "Be brief."; both_record] 0) i =
      Some e ->
      logIndex e = i /\
      (exists log, nth_error items i = Some log /\
                   get_prop log "input" = Ok (input e)) /\
      systemPromptLocation e = found (findSystemPromptInData (input e)) /\
      userPromptLocation e =
        match systemPromptLocation e with
        | Some _ => None
        | None => found (findUserPromptInData (input e))
        end /\
      hasSystemPrompt e = is_some (systemPromptLocation e) /\
      hasUserPrompt e = is_some (userPromptLocation e) /\
      hasSystemPrompt e && hasUserPrompt e = false.
Proof.
  apply (first_pass_invariant
           (VArr (map VObj [chat_record "system" "Be brief."; both_record]))
           (verdicts [chat_record "system" "Be brief."; both_record] 0)).
  reflexivity.
Defined.

Lemma detect_reads_inputs_only_witness :
  detectSystemPromptStructure unit (answering "null") parse_null_only
    stringify_stub number_stub
    (VArr [ VObj [("id", VNum 1); ("input", VStr "a")]; VStr "x" ])
    VNull (mkWorld unit tt [] []) =
  detectSystemPromptStructure unit (answering "null") parse_null_only
    stringify_stub number_stub
    (VArr [ VObj [("input", VStr "a"); ("output", VStr "b")]; VNum 5 ])
    VNull (mkWorld unit tt [] []).
Proof.
  apply (detect_reads_inputs_only unit (answering "null") parse_null_only
           stringify_stub number_stub
           [ VObj [("id", VNum 1); ("input", VStr "a")]; VStr "x" ]
           [ VObj [("input", VStr "a"); ("output", VStr "b")]; VNum 5 ]).
  reflexivity.
Defined.

Lemma detect_result_shapes_witness :
  let logs := VArr (map VObj [ chat_record "system" "Be brief."; [];
                               chat_record "system" "Be kind." ]) in
  let d := {| structure := Some d_array0;
              confidence := 0.9;
              reasoning := "Detected consistent system prompt structure across 2 logs";
              promptType := Some system |} in
  (confidence d = 0.9%Q /\ promptType d = Some system /\
   mkWorld unit tt [] [] = mkWorld unit tt [] [] /\
   exists data e s, analyse logs = Ok data /\ In e data /\
                    systemPromptLocation e = Some s /\ structure d = Some s) \/
  (confidence d = 0.8%Q /\ promptType d = Some user /\
   mkWorld unit tt [] [] = mkWorld unit tt [] [] /\
   exists data e s, analyse logs = Ok data /\ In e data /\
                    userPromptLocation e = Some s /\ structure d = Some s) \/
  (confidence d = 0%Q /\ promptType d = None /\ structure d = None).
Proof.
  exact (detect_result_shapes unit (answering "null") parse_null_only
           stringify_stub number_stub
           (VArr (map VObj [ chat_record "system" "Be brief."; [];
                             chat_record "system" "Be kind." ]))
           VNull (mkWorld unit tt [] []) (mkWorld unit tt [] [])
           {| structure := Some d_array0;
              confidence := 0.9;
              reasoning := "Detected consistent system prompt structure across 2 logs";
              promptType := Some system |}
           eq_refl).
Defined.

Lemma detect_on_malformed_logs_witness :
  exists message,
    detectSystemPromptStructure unit (answering "null") parse_null_only
      stringify_stub number_stub
      (VArr [VObj (chat_record "system" "Be brief."); VNull])
      VNull (mkWorld unit tt [] []) =
    (Ok (Built (zero_confidence message)),
     mkWorld unit tt []
       [("Error detecting system prompt structure:", TypeError message)]).
Proof.
  apply (detect_on_malformed_logs unit (answering "null") parse_null_only
           stringify_stub number_stub
           (VArr [VObj (chat_record "system" "Be brief."); VNull])
           VNull (mkWorld unit tt [] [])).
  right. exists [VObj (chat_record "system" "Be brief."); VNull], VNull.
  split; [reflexivity|]. split; [right; left; reflexivity|].
  intros [_ H]. apply H. reflexivity.
Defined.


Lemma detect_rejection_cause_witness :
  exists data reason,
    analyse (VArr []) = Ok data /\
    List.length (filter hasSystemPrompt data) < 2 /\
    List.length (filter hasUserPrompt data) < 2 /\
    fst (rejecting (VObj [("message", VObj [("toString", VNum 1)])])
           (analysis_request stringify_stub data) tt) =
    Throw reason /\
    ((reason = VUndefined /\
      TypeError "Cannot convert object to primitive value" =
      TypeError "Cannot read properties of undefined (reading 'message')") \/
     (reason = VNull /\
      TypeError "Cannot convert object to primitive value" =
      TypeError "Cannot read properties of null (reading 'message')") \/
     (not_nullish reason /\ convertible (peek reason "message") = false /\
      TypeError "Cannot convert object to primitive value" =
      TypeError "Cannot convert object to primitive value")).
Proof.
  apply (detect_rejection_cause unit
           (rejecting (VObj [("message", VObj [("toString", VNum 1)])]))
           parse_null_only stringify_stub number_stub (VArr []) VNull
           (mkWorld unit tt [] [])).
  reflexivity.
Defined.

Lemma getNestedValue_compose_witness :
  getNestedValue (VObj [("options", VNull)]) ("options" ++ "." ++ "systemMessage") =
  Ok VUndefined.
Proof.
  apply (proj2 (getNestedValue_compose (VObj [("options", VNull)])
                  "options" "systemMessage") VNull); reflexivity.
Defined.

Lemma matches_are_sound_witness :
  points_at_prompt "system" systemPatterns
    (VObj [("prompt", VStr "You are a helpful assistant.")]) d_prompt /\
  type d_prompt <> direct.
Proof.
  apply (proj1 (matches_are_sound
                  (VObj [("prompt", VStr "You are a helpful assistant.")])
                  d_prompt)).
  reflexivity.
Defined.

Lemma analyzers_defined_iff_witness :
  exists d,
    analyzeSystemPromptPattern
      (verdicts [chat_record "system" "Be brief."; both_record] 0) = Ok d.
Proof.
  apply (proj2 (proj1 (analyzers_defined_iff
                         (verdicts [chat_record "system" "Be brief."; both_record] 0)))).
  split; [discriminate|].
  repeat constructor; discriminate.
Defined.
